(** * react-true-table: a shallow embedding of [src/table.jsx]

    The development follows the source file top to bottom: the default
    hooks, the [Column] class, the [Group] class and the [Table]
    component.  Thrown exceptions are carried by an error monad, plain
    objects used as dictionaries (custom props, the sort registry) are
    finite maps, and React output is a small tree type.

    Conventions kept throughout:
    - hooks supplied through props ([headerProps], [render], [key],
      custom comparators, ...) are pure total functions, and a hook that
      returns custom props returns a fresh object on every call;
    - the [children] of a Table are the flat sequence of nodes that
      [React.Children.map] walks (a lone child is a sequence of one, no
      children the empty sequence, and arrays among the children are
      walked through); the [children] of a Group are kept in the shape
      React hands them over, since lodash's [_.map] tells an array from a
      lone child, and an array inside that array is outside the
      embedding, as is any other iterable object among children;
    - an [Element] records the attributes as the JSX writes them, the
      [key] attribute and the spread props side by side; the key React
      derives from the two is computed by [Node_key];
    - back references ([this.table], [this.group]) are not stored in the
      instances: a method that reads [this.table] takes the table as an
      argument. *)

From Stdlib Require Import ZArith Sorted Ascii.
From stdpp Require Import gmap strings list fin_maps pretty sorting.

(** ** Exceptions *)

(** The exceptions of the program: a [TypeError], a plain [Error], the
    [RangeError] of the host for an array that is too long, and the Error
    of React's [invariant] for an object among the children of an element
    (its name is "Invariant Violation"; its text depends on the build of
    React and is not kept). *)
Inductive exn :=
  | TypeError (msg : string)
  | Error (msg : string)
  | RangeError (msg : string)
  | InvariantViolation.

Inductive result (A : Type) :=
  | Ok (a : A)
  | Throw (e : exn).
Arguments Ok {A} a.
Arguments Throw {A} e.

#[global] Instance result_ret : MRet result := @Ok.
#[global] Instance result_bind : MBind result :=
  λ A B f m, match m with Ok a => f a | Throw e => Throw e end.

#[global] Instance result_fmap : FMap result :=
  λ A B f m, match m with Ok a => Ok (f a) | Throw e => Throw e end.

Definition throws {A} (r : result A) : bool :=
  match r with Ok _ => false | Throw _ => true end.

Definition throws_TypeError {A} (r : result A) : bool :=
  match r with Throw (TypeError _) => true | _ => false end.

(** ** Host values

    Data rows and the values read from them are arbitrary host values;
    the embedding is parametric in them.  [row_undefined] is what a
    property read yields for a missing index, [row_length] tells whether
    a host value is what lodash's [isLength] accepts (a number that is a
    non-negative integer, at most [2^53 - 1]) and which, [js_gt] and
    [js_lt] are the host's relational operators [>] and [<] on cell
    values. *)

Class Host := {
  Row : Type;
  Value : Type;
  row_undefined : Row;
  row_length : Row → option N;
  js_gt : Value → Value → bool;
  js_lt : Value → Value → bool
}.

(** A sort id prop is a string or [undefined]. *)
Definition truthy (s : option string) : bool :=
  match s with
  | Some s => negb (String.eqb s "")
  | None => false
  end.

(** [a === b] on sort ids. *)
Definition strict_eq (a b : option string) : bool := bool_decide (a = b).

(** Coercion of a sort id to a property key: [undefined] becomes the
    string "undefined". *)
Definition property_key (s : option string) : string :=
  match s with
  | Some s => s
  | None => "undefined"
  end.

(** Array indexes and mapping keys; also used for React keys. *)
Inductive JsKey :=
  | NumKey (n : nat)
  | StrKey (s : string).

#[global] Instance JsKey_eq_dec : EqDecision JsKey.
Proof. solve_decision. Defined.

(** The string React makes of a key, and the property name an index
    stands for. *)
Definition key_string (k : JsKey) : string :=
  match k with
  | NumKey n => pretty n
  | StrKey s => s
  end.

(** ** React output *)

(** Values found in custom props.  [PropSortBy id] is the click handler
    [() => this.table.sortBy(id)]. *)
Inductive PropValue :=
  | PropNum (n : Z)
  | PropStr (s : string)
  | PropBool (b : bool)
  | PropSortBy (sortId : string).

(** ** The host's [Array.prototype.sort]

    The sorting algorithm belongs to the host language; the embedding
    takes it as an interface.  A comparator may throw, which aborts the
    sort.  For a comparator that returns normally the result is a
    rearrangement of the array, and it is ordered by the comparator
    whenever the comparator is a consistent ordering of the elements of
    the array: exchanging the arguments flips the sign, and "not after"
    is transitive. *)

Definition consistent {A} (f : A → A → Z) (l : list A) : Prop :=
  (∀ x y, x ∈ l → y ∈ l → (f x y ≤ 0)%Z ↔ (0 ≤ f y x)%Z) ∧
  (∀ x y z, x ∈ l → y ∈ l → z ∈ l →
     (f x y ≤ 0)%Z → (f y z ≤ 0)%Z → (f x z ≤ 0)%Z).

Definition ordered_by {A} (f : A → A → Z) (l : list A) : Prop :=
  StronglySorted (λ x y, (f x y ≤ 0)%Z) l.

Class ArraySort := {
  array_sort : ∀ {A}, (A → A → result Z) → list A → result (list A);
  array_sort_spec :
    ∀ A (cmp : A → A → result Z) (f : A → A → Z),
      (∀ x y, cmp x y = Ok (f x y)) →
      ∀ l : list A,
        ∃ l', array_sort cmp l = Ok l' ∧ l ≡ₚ l' ∧
              (consistent f l → ordered_by f l')
}.

(** A stable insertion sort, the instance the examples run on. *)
Fixpoint insert_by {A} (cmp : A → A → result Z) (x : A) (l : list A)
    : result (list A) :=
  match l with
  | [] => Ok [x]
  | y :: l' =>
      c ← cmp x y;
      if (c <=? 0)%Z then Ok (x :: y :: l')
      else r ← insert_by cmp x l'; Ok (y :: r)
  end.

Fixpoint insertion_sort {A} (cmp : A → A → result Z) (l : list A)
    : result (list A) :=
  match l with
  | [] => Ok []
  | x :: l' => s ← insertion_sort cmp l'; insert_by cmp x s
  end.

(** [_.map] with a callback that may throw: the first exception aborts
    the traversal. *)
Fixpoint map_result {A B} (f : A → result B) (l : list A) : result (list B) :=
  match l with
  | [] => Ok []
  | x :: l' => y ← f x; ys ← map_result f l'; Ok (y :: ys)
  end.

(** The [children] prop as React hands it to a component: absent, one
    child as it is, or an array of two or more children (or one the
    caller passed as an array). *)
Inductive ChildrenProp (A : Type) :=
  | NoChildren
  | OnlyChild (a : A)
  | ChildArray (l : list A).
Arguments NoChildren {A}.
Arguments OnlyChild {A} a.
Arguments ChildArray {A} l.

Set Warnings "-register-all".

Section Model.
Context `{Host} `{ArraySort}.

(** [Element tag key props children] is the JSX
    [<tag key={key} {...props}>{children}</tag>], with the attributes as
    written: [key] is the [key] attribute ([None] when the JSX has none)
    and [props] the object spread after it, which may hold a [key] of
    its own. *)
Inductive Node :=
  | Null
  | Text (s : string)
  | ValueNode (v : Value)
  | Element (tag : string) (keyAttribute : option JsKey)
      (spreadProps : gmap string PropValue) (children : list Node)
  | Fragment (children : list Node)
  | ArrayNode (items : list Node).

(** The key React gives an element: a string, or the source text of a
    click handler. *)
Inductive ReactKey :=
  | KeyString (s : string)
  | KeyHandlerSource.

(** ['' + value] *)
Definition PropValue_key (v : PropValue) : ReactKey :=
  match v with
  | PropNum n => KeyString (pretty n)
  | PropStr s => KeyString s
  | PropBool b => KeyString (if b then "true" else "false")
  | PropSortBy _ => KeyHandlerSource
  end.

(** [React.createElement] on [{key: key, ...props}]: a [key] entry of the
    spread props replaces the [key] attribute, and the key is made a
    string. *)
Definition Node_key (n : Node) : option ReactKey :=
  match n with
  | Element _ key props _ =>
      match props !! "key" with
      | Some v => Some (PropValue_key v)
      | None => (λ k, KeyString (key_string k)) <$> key
      end
  | _ => None
  end.

(** ** Default hooks *)

(** [emptyProps = () => ({})] *)
Definition emptyProps {A} (_ : A) : gmap string PropValue := ∅.

(** What a comparator reaches through its [column] argument: the
    instance's [value] accessor (absent on a Group, whose props declare
    none) and its sort id. *)
Inductive SortSubject :=
  | ColumnSubject (value : Row → Value) (sortId : option string)
  | GroupSubject (sortId : option string).

(** The argument object [{a, b, descending, column}] of a comparator. *)
Record SortArgs := {
  sort_a : Row;
  sort_b : Row;
  sort_descending : bool;
  sort_column : SortSubject
}.

(** [column.value(row)] *)
Definition SortSubject_value (c : SortSubject) (row : Row) : result Value :=
  match c with
  | ColumnSubject value _ => Ok (value row)
  | GroupSubject _ => Throw (TypeError "this.props.value is not a function")
  end.

Definition defaultSort (args : SortArgs) : result Z :=
  va ← SortSubject_value (sort_column args) (sort_a args);
  vb ← SortSubject_value (sort_column args) (sort_b args);
  Ok (if js_gt va vb then 1 else if js_lt va vb then -1 else 0)%Z.

(** The argument object [{cell, descending}] of the sorting renderer. *)
Record SortingArgs := {
  sorting_cell : Node;
  sorting_descending : bool
}.

Definition defaultRenderSorting (args : SortingArgs) : Node :=
  let arrow := if sorting_descending args then "∨" else "∧" in
  Fragment [sorting_cell args; Text " "; Text arrow].

(** A [sortMethod] prop: the module's own [defaultSort] or a comparator
    supplied by the user. *)
Inductive SortMethod :=
  | DefaultSort
  | CustomSort (f : SortArgs → Z).

Definition call_sortMethod (m : SortMethod) (args : SortArgs) : result Z :=
  match m with
  | DefaultSort => defaultSort args
  | CustomSort f => Ok (f args)
  end.

(** ** Hook arguments *)

(** Result of [isSorted]: [sort && (sort === sortId)] is the falsy
    [sort] itself ([undefined] or the empty string) or a boolean. *)
Inductive SortedFlag :=
  | FlagUndefined
  | FlagEmpty
  | FlagBool (b : bool).

(** [{colIndex, groupIndex, sort, descending}] *)
Record HeaderArgs := {
  header_colIndex : nat;
  header_groupIndex : option nat;
  header_sort : SortedFlag;
  header_descending : bool
}.

(** [{row, rowIndex, colIndex, groupIndex}]; [row] and [rowIndex] are
    absent when a key is computed for a header cell. *)
Record CellArgs := {
  cell_row : option Row;
  cell_rowIndex : option JsKey;
  cell_colIndex : nat;
  cell_groupIndex : option nat
}.

(** [{row, rowIndex, columnIndex, groupIndex}], the argument a Group
    passes to its own [tdProps]. *)
Record GroupCellArgs := {
  gcell_row : Row;
  gcell_rowIndex : JsKey;
  gcell_columnIndex : nat;
  gcell_groupIndex : nat
}.

(** [{row, value, rowIndex, colIndex, groupIndex}] *)
Record RenderArgs := {
  render_row : Row;
  render_value : Value;
  render_rowIndex : JsKey;
  render_colIndex : nat;
  render_groupIndex : option nat
}.

(** [{row, rowIndex}] *)
Record RowArgs := {
  tr_row : Row;
  tr_rowIndex : JsKey
}.

(** ** Props

    [ColumnProps] and [GroupProps] are the [props] objects the
    constructors receive; [column_key] and [group_key] are [props.key]. *)

Record ColumnProps := {
  column_header : Node;
  column_value : Row → Value;
  column_render : RenderArgs → Node;
  column_key : CellArgs → JsKey;
  column_sortId : option string;
  column_sortMethod : option SortMethod;
  column_hidden : bool;
  column_headerProps : HeaderArgs → gmap string PropValue;
  column_tdProps : CellArgs → gmap string PropValue
}.

(** [Column.defaultProps] *)
Definition Column_default_render (args : RenderArgs) : Node :=
  ValueNode (render_value args).

Definition Column_default_key (args : CellArgs) : JsKey :=
  match cell_groupIndex args with
  | None => NumKey (cell_colIndex args)
  | Some g => StrKey (pretty (cell_colIndex args) +:+ ":" +:+ pretty g)
  end.

(** The props of [<Column header=.. value=.. sortId=.. />]: every other
    prop takes its default. *)
Definition Column_defaultProps (header : Node) (value : Row → Value)
    (sortId : option string) : ColumnProps :=
  {| column_header := header;
     column_value := value;
     column_render := Column_default_render;
     column_key := Column_default_key;
     column_sortId := sortId;
     column_sortMethod := Some DefaultSort;
     column_hidden := false;
     column_headerProps := emptyProps;
     column_tdProps := emptyProps |}.

(** The props of a Group, its [children] apart. *)
Record GroupProps := {
  group_header : Node;
  group_key : CellArgs → JsKey;
  group_sortId : option string;
  group_sortMethod : option SortMethod;
  group_headerProps : HeaderArgs → gmap string PropValue;
  group_subHeaderProps : HeaderArgs → gmap string PropValue;
  group_tdProps : GroupCellArgs → gmap string PropValue
}.

(** [Group.defaultProps] *)
Definition Group_default_key (args : CellArgs) : JsKey :=
  NumKey (cell_colIndex args).

Definition Group_defaultProps (header : Node) (sortId : option string)
    (sortMethod : option SortMethod) : GroupProps :=
  {| group_header := header;
     group_key := Group_default_key;
     group_sortId := sortId;
     group_sortMethod := sortMethod;
     group_headerProps := emptyProps;
     group_subHeaderProps := emptyProps;
     group_tdProps := emptyProps |}.

(** [e.props] of an element [<Column {...attrs}/>].  [key] is not a prop
    to React: [createElement] keeps a [key] attribute for itself and
    leaves it out of the props, where the default then stands in for it
    (as in the production build; the development build makes
    [props.key] of an element written with a [key] a getter that warns). *)
Definition Column_elementProps (attrs : ColumnProps) : ColumnProps :=
  {| column_header := column_header attrs;
     column_value := column_value attrs;
     column_render := column_render attrs;
     column_key := Column_default_key;
     column_sortId := column_sortId attrs;
     column_sortMethod := column_sortMethod attrs;
     column_hidden := column_hidden attrs;
     column_headerProps := column_headerProps attrs;
     column_tdProps := column_tdProps attrs |}.

(** [e.props] of an element [<Group {...attrs}>], its [children] apart. *)
Definition Group_elementProps (attrs : GroupProps) : GroupProps :=
  {| group_header := group_header attrs;
     group_key := Group_default_key;
     group_sortId := group_sortId attrs;
     group_sortMethod := group_sortMethod attrs;
     group_headerProps := group_headerProps attrs;
     group_subHeaderProps := group_subHeaderProps attrs;
     group_tdProps := group_tdProps attrs |}.

(** ** Declarative children

    A child node is a primitive, a function (one without enumerable
    properties of its own), a symbol, a plain object (given by the values
    of its properties, none of them a [length]), or an element, given by
    the attributes it is written with, whose type is [Column], [Group], a
    host tag, or some other component class (one that does not extend
    [Column]), named by [e.type.name]. *)
Inductive Child :=
  | ChildString (s : string)
  | ChildNumber (n : Z)
  | ChildBoolean (b : bool)
  | ChildNull
  | ChildUndefined
  | ChildFunction
  | ChildSymbol
  | ChildObject (values : list Child)
  | ColumnElement (attrs : ColumnProps)
  | GroupElement (attrs : GroupProps) (children : ChildrenProp Child)
  | HostElement (tag : string)
  | OtherElement (name : string).

(** [isValidElement(e)] *)
Definition isValidElement (e : Child) : bool :=
  match e with
  | ColumnElement _ | GroupElement _ _ | HostElement _ | OtherElement _ => true
  | _ => false
  end.

(** [typeof e] *)
Definition typeof (e : Child) : string :=
  match e with
  | ChildString _ => "string"
  | ChildNumber _ => "number"
  | ChildBoolean _ => "boolean"
  | ChildUndefined => "undefined"
  | ChildFunction => "function"
  | ChildSymbol => "symbol"
  | _ => "object"
  end.

(** ** Instances *)

Record Column := { Column_props : ColumnProps }.

(** [new Column(props, table, group)] *)
Definition Column_new (props : ColumnProps) : Column :=
  {| Column_props := props |}.

Record Group := {
  Group_props : GroupProps;
  Group_columns : list Column
}.

Inductive Instance :=
  | ColumnInstance (c : Column)
  | GroupInstance (g : Group).

(** ** The Table component *)

(** The [data] prop: an array, given by its elements, or another object,
    a mapping, given by its own enumerable properties in enumeration
    order. *)
Inductive Dataset :=
  | ArrayData (rows : list Row)
  | ObjectData (entries : list (string * Row)).

(** The [children] prop of a Table: its identity, and the nodes
    [React.Children.map] walks in it, in order. *)
Record Children := {
  children_ref : nat;
  children_nodes : list Child
}.

Record TableProps := {
  table_data : Dataset;
  table_sort : option string;
  table_descending : bool;
  table_renderSorting : SortingArgs → Node;
  table_children : Children;
  table_tableProps : unit → gmap string PropValue;
  table_theadProps : unit → gmap string PropValue;
  table_headerTrProps : unit → gmap string PropValue;
  table_subHeaderTrProps : unit → gmap string PropValue;
  table_tbodyProps : unit → gmap string PropValue;
  table_dataTrProps : RowArgs → gmap string PropValue;
  table_trProps : option RowArgs → gmap string PropValue
}.

(** [Table.defaultProps] over the required [data] and [children]. *)
Definition Table_defaultProps (data : Dataset) (sort : option string)
    (children : Children) : TableProps :=
  {| table_data := data;
     table_sort := sort;
     table_descending := false;
     table_renderSorting := defaultRenderSorting;
     table_children := children;
     table_tableProps := emptyProps;
     table_theadProps := emptyProps;
     table_headerTrProps := emptyProps;
     table_subHeaderTrProps := emptyProps;
     table_tbodyProps := emptyProps;
     table_dataTrProps := emptyProps;
     table_trProps := emptyProps |}.

Record TableState := {
  state_sort : option string;
  state_descending : bool;
  state_columns : list Instance
}.

(** A mounted Table: [this.props], [this.state] and [this.sortMap]. *)
Record Table := {
  Table_props : TableProps;
  Table_state : TableState;
  Table_sortMap : gmap string Instance
}.

(** ** Column methods *)

(** [isSorted(sort)]: [sort && (sort === this.props.sortId)] *)
Definition isSorted (sortId : option string) (sort : option string)
    : SortedFlag :=
  match sort with
  | None => FlagUndefined
  | Some s => if String.eqb s "" then FlagEmpty
              else FlagBool (strict_eq sort sortId)
  end.

Definition Column_isSorted (c : Column) (sort : option string) : SortedFlag :=
  isSorted (column_sortId (Column_props c)) sort.

(** [Table.renderSorting(sortId, cell)] *)
Definition Table_renderSorting (t : Table) (sortId : option string)
    (cell : Node) : Node :=
  if truthy sortId && strict_eq sortId (state_sort (Table_state t)) then
    table_renderSorting (Table_props t)
      {| sorting_cell := cell;
         sorting_descending := state_descending (Table_state t) |}
  else cell.

(** [{...groupProps, ...props}] when [groupProps] is given. *)
Definition with_groupProps (groupProps : option (gmap string PropValue))
    (props : gmap string PropValue) : gmap string PropValue :=
  match groupProps with
  | Some gp => props ∪ gp
  | None => props
  end.

(** [props.onClick = () => this.table.sortBy(this.props.sortId)] when the
    sort id is truthy. *)
Definition with_onClick (sortId : option string)
    (props : gmap string PropValue) : gmap string PropValue :=
  match sortId with
  | Some s => if truthy sortId then <["onClick" := PropSortBy s]> props
              else props
  | None => props
  end.

(** [Column.renderHeader(colIndex, sort, descending, groupIndex, groupProps)]:
    [<th key={key} {...props}>]. *)
Definition Column_renderHeader (t : Table) (c : Column) (colIndex : nat)
    (sort : option string) (descending : bool) (groupIndex : option nat)
    (groupProps : option (gmap string PropValue)) : Node :=
  let p := Column_props c in
  if column_hidden p then Null
  else
    let props := column_headerProps p
      {| header_colIndex := colIndex; header_groupIndex := groupIndex;
         header_sort := Column_isSorted c sort;
         header_descending := descending |} in
    let props := with_groupProps groupProps props in
    let props := match groupIndex with
                 | None => <["rowSpan" := PropNum 2]> props
                 | Some _ => props
                 end in
    let props := with_onClick (column_sortId p) props in
    let key := column_key p
      {| cell_row := None; cell_rowIndex := None;
         cell_colIndex := colIndex; cell_groupIndex := groupIndex |} in
    let cell := Table_renderSorting t (column_sortId p) (column_header p) in
    Element "th" (Some key) props [cell].

(** [Column.value(row)] *)
Definition Column_value (c : Column) (row : Row) : Value :=
  column_value (Column_props c) row.

(** [Column.renderCell(row, rowIndex, colIndex, groupIndex, groupProps)]:
    [<td key={key} {...props}>]. *)
Definition Column_renderCell (c : Column) (row : Row) (rowIndex : JsKey)
    (colIndex : nat) (groupIndex : option nat)
    (groupProps : option (gmap string PropValue)) : Node :=
  let p := Column_props c in
  if column_hidden p then Null
  else
    let args := {| cell_row := Some row; cell_rowIndex := Some rowIndex;
                   cell_colIndex := colIndex;
                   cell_groupIndex := groupIndex |} in
    let props := column_tdProps p args in
    let props := with_groupProps groupProps props in
    let key := column_key p args in
    let cell := column_render p
      {| render_row := row; render_value := Column_value c row;
         render_rowIndex := rowIndex; render_colIndex := colIndex;
         render_groupIndex := groupIndex |} in
    Element "td" (Some key) props [cell].

(** [sortMap[sortId] = instance] on the registry, a plain object whose
    own properties the finite map holds.  Assigning to ["__proto__"]
    replaces the prototype of the object and adds no property of its own
    (the instances that can become the prototype have no property named
    [hasOwnProperty] and no setter, so that neither the own properties
    nor the method are affected). *)
Definition sortMap_set (sortId : string) (instance : Instance)
    (sortMap : gmap string Instance) : gmap string Instance :=
  if String.eqb sortId "__proto__" then sortMap
  else <[sortId := instance]> sortMap.

(** [Column.registerSortColumns(sortMap)] *)
Definition Column_registerSortColumns (c : Column)
    (sortMap : gmap string Instance) : gmap string Instance :=
  match column_sortId (Column_props c), column_sortMethod (Column_props c) with
  | Some s, Some _ =>
      if truthy (Some s) then sortMap_set s (ColumnInstance c) sortMap
      else sortMap
  | _, _ => sortMap
  end.

(** The body of [Column.sort], shared by Column and Group (Group inherits
    the method): [this.props.sortMethod({a, b, descending, column: this})
    * dir]. *)
Definition sort_with (sortMethod : option SortMethod) (this : SortSubject)
    (a b : Row) (descending : bool) : result Z :=
  let dir := (if descending then -1 else 1)%Z in
  match sortMethod with
  | Some m =>
      r ← call_sortMethod m
        {| sort_a := a; sort_b := b; sort_descending := descending;
           sort_column := this |};
      Ok (r * dir)%Z
  | None => Throw (TypeError "this.props.sortMethod is not a function")
  end.

Definition Column_subject (c : Column) : SortSubject :=
  ColumnSubject (column_value (Column_props c)) (column_sortId (Column_props c)).

(** [Column.sort(a, b, descending)] *)
Definition Column_sort (c : Column) (a b : Row) (descending : bool)
    : result Z :=
  sort_with (column_sortMethod (Column_props c)) (Column_subject c)
    a b descending.

(** ** Group methods *)

(** The callback of the Group constructor on one child. *)
Definition Group_child (e : Child) : result Column :=
  match e with
  | ColumnElement attrs => Ok (Column_new (Column_elementProps attrs))
  | GroupElement _ _ => Throw (TypeError "Element <Group> not valid in <Group>")
  | HostElement _ => Throw (TypeError "Element <undefined> not valid in <Group>")
  | OtherElement name =>
      Throw (TypeError ("Element <" +:+ name +:+ "> not valid in <Group>"))
  | _ => Throw (TypeError ("Node of type " +:+ typeof e +:+ " not valid in <Group>"))
  end.

(** [_.map(e, callback)] on a lone child [e], which lodash takes for a
    collection: the callback is called on the characters of a string, so
    on the first one if there is any, and on the property values of an
    object, those of an element beginning with its [$$typeof] symbol; a
    number, a boolean, [null], [undefined], a function and a symbol have
    nothing to call it on. *)
Definition Group_onlyChild (e : Child) : result (list Column) :=
  match e with
  | ChildString s =>
      if String.eqb s "" then Ok []
      else Throw (TypeError "Node of type string not valid in <Group>")
  | ChildObject values => map_result Group_child values
  | ColumnElement _ | GroupElement _ _ | HostElement _ | OtherElement _ =>
      Throw (TypeError "Node of type symbol not valid in <Group>")
  | _ => Ok []
  end.

(** [_.map(props.children, callback)] *)
Definition Group_children (children : ChildrenProp Child)
    : result (list Column) :=
  match children with
  | NoChildren => Ok []
  | OnlyChild e => Group_onlyChild e
  | ChildArray l => map_result Group_child l
  end.

(** [new Group(props, table)] with [props.children] written apart. *)
Definition Group_new (props : GroupProps) (children : ChildrenProp Child)
    : result Group :=
  columns ← Group_children children;
  if truthy (group_sortId props) && negb (bool_decide (is_Some (group_sortMethod props)))
  then Throw (Error "sortMethod is required for sortable <Group>")
  else Ok {| Group_props := props; Group_columns := columns |}.

Definition Group_isSorted (g : Group) (sort : option string) : SortedFlag :=
  isSorted (group_sortId (Group_props g)) sort.

(** [Group.renderHeader(colIndex, sort, descending)]: the cell of the
    group followed by the cells of its child columns. *)
Definition Group_renderHeader (t : Table) (g : Group) (colIndex : nat)
    (sort : option string) (descending : bool) : list Node :=
  let p := Group_props g in
  let props := group_headerProps p
    {| header_colIndex := colIndex; header_groupIndex := None;
       header_sort := Group_isSorted g sort;
       header_descending := descending |} in
  let props := <["colSpan" := PropNum (Z.of_nat (length (Group_columns g)))]> props in
  let props := with_onClick (group_sortId p) props in
  let key := group_key p
    {| cell_row := None; cell_rowIndex := None;
       cell_colIndex := colIndex; cell_groupIndex := None |} in
  let cell := Table_renderSorting t (group_sortId p) (group_header p) in
  Element "th" (Some key) props [cell] ::
  imap (λ groupIndex c,
          let groupProps := group_subHeaderProps p
            {| header_colIndex := colIndex;
               header_groupIndex := Some groupIndex;
               header_sort := Column_isSorted c sort;
               header_descending := descending |} in
          Column_renderHeader t c colIndex sort descending
            (Some groupIndex) (Some groupProps))
       (Group_columns g).

(** [Group.renderCell(row, rowIndex, columnIndex)] *)
Definition Group_renderCell (g : Group) (row : Row) (rowIndex : JsKey)
    (columnIndex : nat) : list Node :=
  imap (λ groupIndex c,
          let groupProps := group_tdProps (Group_props g)
            {| gcell_row := row; gcell_rowIndex := rowIndex;
               gcell_columnIndex := columnIndex;
               gcell_groupIndex := groupIndex |} in
          Column_renderCell c row rowIndex columnIndex
            (Some groupIndex) (Some groupProps))
       (Group_columns g).

(** [this.sortId] on a Group instance.  The constructors assign
    [this.props], [this.table], [this.group] and [this.columns] and
    nothing else, so the instance has no such field and the read yields
    [undefined]. *)
Definition Group_sortId (g : Group) : option string := None.

(** [Group.registerSortColumns(sortMap)] *)
Definition Group_registerSortColumns (g : Group)
    (sortMap : gmap string Instance) : gmap string Instance :=
  let sortMap :=
    match Group_sortId g with
    | Some s =>
        if truthy (Some s) then sortMap_set s (GroupInstance g) sortMap
        else sortMap
    | None => sortMap
    end in
  foldl (λ sm c, Column_registerSortColumns c sm) sortMap (Group_columns g).

Definition Group_subject (g : Group) : SortSubject :=
  GroupSubject (group_sortId (Group_props g)).

(** [Group.sort(a, b, descending)], inherited from Column. *)
Definition Group_sort (g : Group) (a b : Row) (descending : bool)
    : result Z :=
  sort_with (group_sortMethod (Group_props g)) (Group_subject g)
    a b descending.

(** ** Method dispatch on an instance *)

Definition Instance_renderHeader (t : Table) (i : Instance) (colIndex : nat)
    (sort : option string) (descending : bool) : Node :=
  match i with
  | ColumnInstance c =>
      Column_renderHeader t c colIndex sort descending None None
  | GroupInstance g =>
      ArrayNode (Group_renderHeader t g colIndex sort descending)
  end.

Definition Instance_renderCell (i : Instance) (row : Row) (rowIndex : JsKey)
    (colIndex : nat) : Node :=
  match i with
  | ColumnInstance c => Column_renderCell c row rowIndex colIndex None None
  | GroupInstance g => ArrayNode (Group_renderCell g row rowIndex colIndex)
  end.

Definition Instance_registerSortColumns (i : Instance)
    (sortMap : gmap string Instance) : gmap string Instance :=
  match i with
  | ColumnInstance c => Column_registerSortColumns c sortMap
  | GroupInstance g => Group_registerSortColumns g sortMap
  end.

Definition Instance_sort (i : Instance) (a b : Row) (descending : bool)
    : result Z :=
  match i with
  | ColumnInstance c => Column_sort c a b descending
  | GroupInstance g => Group_sort g a b descending
  end.

(** ** Table methods *)

(** The callback of [updateColumns] on one child, up to the registration
    of the new instance; [new e.type(..)] on a host tag is itself a
    TypeError. *)
Definition Table_child (e : Child) : result Instance :=
  match e with
  | ColumnElement attrs =>
      Ok (ColumnInstance (Column_new (Column_elementProps attrs)))
  | GroupElement attrs children =>
      g ← Group_new (Group_elementProps attrs) children; Ok (GroupInstance g)
  | HostElement _ => Throw (TypeError "e.type is not a constructor")
  | OtherElement name =>
      Throw (TypeError ("Element <" +:+ name +:+ "> not valid in <Table>"))
  | _ => Throw (TypeError ("Node of type " +:+ typeof e +:+ " not valid in <Table>"))
  end.

(** What [React.Children.map] makes of one child before it calls back:
    the callback is called with [null] for a boolean, [null] or
    [undefined], and with the child itself for a string, a number and an
    element; a function and a symbol are passed over without a call; a
    plain object fails React's invariant. *)
Definition Children_visit (e : Child) : result (option Child) :=
  match e with
  | ChildBoolean _ | ChildNull | ChildUndefined => Ok (Some ChildNull)
  | ChildFunction | ChildSymbol => Ok None
  | ChildObject _ => Throw InvariantViolation
  | _ => Ok (Some e)
  end.

(** The traversal of [updateColumns], threading [this.sortMap]. *)
Fixpoint updateColumns_from (children : list Child)
    (sortMap : gmap string Instance)
    : result (list Instance * gmap string Instance) :=
  match children with
  | [] => Ok ([], sortMap)
  | e :: rest =>
      visited ← Children_visit e;
      match visited with
      | None => updateColumns_from rest sortMap
      | Some e' =>
          instance ← Table_child e';
          r ← updateColumns_from rest
                (Instance_registerSortColumns instance sortMap);
          Ok (instance :: r.1, r.2)
      end
  end.

(** [Table.updateColumns(children)]: [this.sortMap = {}], then the
    traversal.  Returns the instances together with the registry. *)
Definition Table_updateColumns (children : list Child)
    : result (list Instance * gmap string Instance) :=
  updateColumns_from children ∅.

(** [Table.validateProps()] only writes a warning to the console: it
    neither changes the component nor throws. *)
Definition Table_validateProps (t : Table) : Table := t.

(** [new Table(props)] *)
Definition Table_new (props : TableProps) : result Table :=
  r ← Table_updateColumns (children_nodes (table_children props));
  Ok (Table_validateProps
        {| Table_props := props;
           Table_state := {| state_sort := table_sort props;
                             state_descending := table_descending props;
                             state_columns := r.1 |};
           Table_sortMap := r.2 |}).

(** [this.setState({columns})] *)
Definition setState_columns (columns : list Instance) (s : TableState)
    : TableState :=
  {| state_sort := state_sort s;
     state_descending := state_descending s;
     state_columns := columns |}.

(** [this.setState({sort, descending})] *)
Definition setState_sort (sort : option string) (descending : bool)
    (s : TableState) : TableState :=
  {| state_sort := sort;
     state_descending := descending;
     state_columns := state_columns s |}.

(** [this.props.children !== props.children] *)
Definition children_differ (a b : Children) : bool :=
  negb (children_ref a =? children_ref b).

(** [Table.componentWillReceiveProps(props)].  An exception thrown by
    [updateColumns] leaves the method. *)
Definition Table_componentWillReceiveProps (t : Table) (props : TableProps)
    : result Table :=
  if children_differ (table_children (Table_props t)) (table_children props)
  then
    r ← Table_updateColumns (children_nodes (table_children props));
    Ok (Table_validateProps
          {| Table_props := Table_props t;
             Table_state := setState_columns r.1 (Table_state t);
             Table_sortMap := r.2 |})
  else Ok (Table_validateProps t).

(** [(c instanceof Array) ? c[0] : c] *)
Definition main_cell (c : Node) : Node :=
  match c with
  | ArrayNode l => default Null (head l)
  | _ => c
  end.

(** [(c instanceof Array) ? c.slice(1) : []] *)
Definition sub_cells (c : Node) : list Node :=
  match c with
  | ArrayNode l => tail l
  | _ => []
  end.

(** [Table.renderMainHeader(cells)] *)
Definition Table_renderMainHeader (t : Table) (cells : list Node) : Node :=
  let rowCells := main_cell <$> cells in
  let props := table_headerTrProps (Table_props t) () ∪
               table_trProps (Table_props t) None in
  Element "tr" None props [ArrayNode rowCells].

(** [Table.renderSubHeader(cells)] *)
Definition Table_renderSubHeader (t : Table) (cells : list Node) : Node :=
  let rowCells := concat (sub_cells <$> cells) in
  if length rowCells =? 0 then Null
  else
    let props := table_subHeaderTrProps (Table_props t) () ∪
                 table_trProps (Table_props t) None in
    Element "tr" None props [ArrayNode rowCells].

(** The [cells] computed by [Table.renderHeader]. *)
Definition Table_headerCells (t : Table) : list Node :=
  imap (λ colIndex c,
          Instance_renderHeader t c colIndex
            (state_sort (Table_state t)) (state_descending (Table_state t)))
       (state_columns (Table_state t)).

(** [Table.renderHeader()] *)
Definition Table_renderHeader (t : Table) : Node :=
  let cells := Table_headerCells t in
  Element "thead" None (table_theadProps (Table_props t) ())
    [Table_renderMainHeader t cells; Table_renderSubHeader t cells].

Fixpoint assoc (k : string) (entries : list (string * Row)) : option Row :=
  match entries with
  | [] => None
  | (k', row) :: rest => if String.eqb k k' then Some row else assoc k rest
  end.

(** lodash's [isArrayLike] on a dataset that is not an array: a mapping
    whose [length] property is a valid length is walked by position, up
    to that length. *)
Definition array_like (d : Dataset) : option N :=
  match d with
  | ArrayData _ => None
  | ObjectData entries => assoc "length" entries ≫= row_length
  end.

(** The indexes [_.map(data, (value, index) => index)] collects: the
    positions of an array, the positions below the [length] of an
    array-like mapping, the keys of any other mapping in its enumeration
    order. *)
Definition data_indexes (d : Dataset) : list JsKey :=
  match d with
  | ArrayData rows => imap (λ i _, NumKey i) rows
  | ObjectData entries =>
      match array_like d with
      | Some n => NumKey <$> seq 0 (N.to_nat n)
      | None => (λ e, StrKey e.1) <$> entries
      end
  end.

(** [_.map(data, (value, index) => index)].  For an array-like mapping
    lodash first allocates [Array(data.length)], which the host refuses
    from [2^32] on. *)
Definition lodash_map_indexes (d : Dataset) : result (list JsKey) :=
  match array_like d with
  | Some n =>
      if (n <? 2 ^ 32)%N then Ok (data_indexes d)
      else Throw (RangeError "Invalid array length")
  | None => Ok (data_indexes d)
  end.

(** [data[rowIndex]]: an element of an array by position, a property of
    a mapping by name.  A read of an array under a name that is not a
    position is taken to yield [undefined]. *)
Definition data_get (d : Dataset) (i : JsKey) : Row :=
  match d, i with
  | ArrayData rows, NumKey n => default row_undefined (rows !! n)
  | ArrayData rows, StrKey _ => row_undefined
  | ObjectData entries, _ =>
      default row_undefined (assoc (key_string i) entries)
  end.

(** The comparator [sortedDataIndexes] hands to [indexes.sort]. *)
Definition index_comparator (t : Table) (column : Instance) (a b : JsKey)
    : result Z :=
  Instance_sort column
    (data_get (table_data (Table_props t)) a)
    (data_get (table_data (Table_props t)) b)
    (state_descending (Table_state t)).

(** [Table.sortedDataIndexes()].  [this.sortMap.hasOwnProperty] is the
    method of [Object.prototype] unless the registry has a property of
    its own under that name, which is then an instance and no function. *)
Definition Table_sortedDataIndexes (t : Table) : result (list JsKey) :=
  indexes ← lodash_map_indexes (table_data (Table_props t));
  match Table_sortMap t !! "hasOwnProperty" with
  | Some _ => Throw (TypeError "this.sortMap.hasOwnProperty is not a function")
  | None =>
      match Table_sortMap t !! property_key (state_sort (Table_state t)) with
      | None => Ok indexes
      | Some column => array_sort (index_comparator t column) indexes
      end
  end.

(** [Table.renderRow(rowIndex)]: [<tr key={rowIndex} {...props}>]. *)
Definition Table_renderRow (t : Table) (rowIndex : JsKey) : Node :=
  let row := data_get (table_data (Table_props t)) rowIndex in
  let args := {| tr_row := row; tr_rowIndex := rowIndex |} in
  let props := table_dataTrProps (Table_props t) args ∪
               table_trProps (Table_props t) (Some args) in
  let cells := imap (λ colIndex c, Instance_renderCell c row rowIndex colIndex)
                    (state_columns (Table_state t)) in
  Element "tr" (Some rowIndex) props [ArrayNode cells].

(** [Table.renderBody()] *)
Definition Table_renderBody (t : Table) : result Node :=
  indexes ← Table_sortedDataIndexes t;
  Ok (Element "tbody" None (table_tbodyProps (Table_props t) ())
        [ArrayNode (Table_renderRow t <$> indexes)]).

(** [Table.render()] *)
Definition Table_render (t : Table) : result Node :=
  let header := Table_renderHeader t in
  body ← Table_renderBody t;
  Ok (Element "table" None (table_tableProps (Table_props t) ())
        [header; body]).

(** [Table.sortBy(sort, descending)] *)
Definition Table_sortBy (t : Table) (sort : option string)
    (descending : option bool) : Table :=
  let descending :=
    match descending with
    | None => if strict_eq sort (state_sort (Table_state t))
              then negb (state_descending (Table_state t)) else false
    | Some d => d
    end in
  Table_validateProps
    {| Table_props := Table_props t;
       Table_state := setState_sort sort descending (Table_state t);
       Table_sortMap := Table_sortMap t |}.

End Model.

(** ** A concrete host and concrete tables

    Rows are numbers or [undefined]; a cell value is the row itself.  A
    row is a valid length when it is an integer from 0 to [2^53 - 1],
    that is, a non-negative one of at most 53 binary digits. *)

Definition option_gt (a b : option Z) : bool :=
  match a, b with
  | Some x, Some y => (y <? x)%Z
  | _, _ => false
  end.

#[global] Instance number_Host : Host := {|
  Row := option Z;
  Value := option Z;
  row_undefined := None;
  row_length := λ row,
    match row with
    | Some z => if ((0 <=? z) && (Z.log2 z <? 53))%Z then Some (Z.to_N z)
                else None
    | None => None
    end;
  js_gt := option_gt;
  js_lt := λ a b, option_gt b a
|}.

(** A comparator that keeps missing rows last in both directions: it
    reads the [descending] flag to undo the sign flip of [Column.sort]. *)
Definition missing_last (args : @SortArgs number_Host) : Z :=
  match sort_a args, sort_b args with
  | None, None => 0
  | None, Some _ => if sort_descending args then -1 else 1
  | Some _, None => if sort_descending args then 1 else -1
  | Some x, Some y => if (y <? x)%Z then 1 else if (x <? y)%Z then -1 else 0
  end.

(** [<Column header="amount" value={row => row} sortId="amount"/>] *)
Definition amount_column : ColumnProps :=
  Column_defaultProps (Text "amount") (λ row, row) (Some "amount").

(** The same column, hidden. *)
Definition hidden_column : ColumnProps :=
  {| column_header := Text "secret";
     column_value := λ row, row;
     column_render := Column_default_render;
     column_key := Column_default_key;
     column_sortId := None;
     column_sortMethod := Some DefaultSort;
     column_hidden := true;
     column_headerProps := emptyProps;
     column_tdProps := emptyProps |}.

(** [<Column header="amount" value={row => row} sortId="amount"
             sortMethod={missing_last}/>] *)
Definition missing_last_column : ColumnProps :=
  {| column_header := Text "amount";
     column_value := λ row, row;
     column_render := Column_default_render;
     column_key := Column_default_key;
     column_sortId := Some "amount";
     column_sortMethod := Some (CustomSort missing_last);
     column_hidden := false;
     column_headerProps := emptyProps;
     column_tdProps := emptyProps |}.

(** [<Group header="totals" sortId="total" sortMethod={missing_last}>] *)
Definition sortable_group : GroupProps :=
  Group_defaultProps (Text "totals") (Some "total")
    (Some (CustomSort missing_last)).

(** [<Group header="totals" sortId="total">]: a sort id and no comparator. *)
Definition unsortable_group : GroupProps :=
  Group_defaultProps (Text "totals") (Some "total") None.

(** The children of
    [<Table><Group sortId="total" sortMethod=..><Column ../><Column hidden/></Group></Table>] *)
Definition group_children : list Child :=
  [GroupElement sortable_group
     (ChildArray [ColumnElement amount_column; ColumnElement hidden_column])].



(** A mounted table over [[3, 1, 2]] with one sortable column, sorted by
    it in ascending order. *)
Definition amount_table : Table :=
  {| Table_props :=
       Table_defaultProps (ArrayData [Some 3; Some 1; Some 2])%Z (Some "amount")
         {| children_ref := 0; children_nodes := [ColumnElement amount_column] |};
     Table_state :=
       {| state_sort := Some "amount";
          state_descending := false;
          state_columns := [ColumnInstance (Column_new amount_column)] |};
     Table_sortMap := {["amount" := ColumnInstance (Column_new amount_column)]} |}.

(** New props for [amount_table]: another children array, holding the
    group above. *)
Definition replaced_props : TableProps :=
  Table_defaultProps (ArrayData []) None
    {| children_ref := 1; children_nodes := group_children |}.

(** The same table over a mapping-shaped dataset. *)
Definition ledger_table : Table :=
  {| Table_props :=
       Table_defaultProps (ObjectData [("rent", Some 7); ("food", Some 4)])%Z
         (Some "amount")
         {| children_ref := 0; children_nodes := [ColumnElement amount_column] |};
     Table_state := Table_state amount_table;
     Table_sortMap := Table_sortMap amount_table |}.

(** The table [amount_table], unsorted, over the mapping
    [{length: 2, a: 1}]. *)
Definition array_like_table : Table :=
  {| Table_props :=
       Table_defaultProps (ObjectData [("length", Some 2); ("a", Some 1)])%Z
         None
         {| children_ref := 0; children_nodes := [ColumnElement amount_column] |};
     Table_state :=
       {| state_sort := None;
          state_descending := false;
          state_columns := [ColumnInstance (Column_new amount_column)] |};
     Table_sortMap := Table_sortMap amount_table |}.

(** [<Column header="amount" value={row => row} sortId="hasOwnProperty"/>] *)
Definition shadowing_column : ColumnProps :=
  Column_defaultProps (Text "amount") (λ row, row) (Some "hasOwnProperty").

(** A mounted table over [[3, 1, 2]] with that column, unsorted. *)
Definition shadowed_table : Table :=
  {| Table_props :=
       Table_defaultProps (ArrayData [Some 3; Some 1; Some 2])%Z None
         {| children_ref := 0;
            children_nodes := [ColumnElement shadowing_column] |};
     Table_state :=
       {| state_sort := None;
          state_descending := false;
          state_columns := [ColumnInstance (Column_new shadowing_column)] |};
     Table_sortMap :=
       {["hasOwnProperty" := ColumnInstance (Column_new shadowing_column)]} |}.

(** ** Vocabulary of the statements *)

Section Vocabulary.
Context `{Host}.

(** An instance that [Column.sort] can compare rows with: a Column that
    carries a comparator. *)
Definition sortable_column (i : Instance) : Prop :=
  ∃ c, i = ColumnInstance c ∧ is_Some (column_sortMethod (Column_props c)).

(** The columns and the registry of a table are those [updateColumns]
    produced for some children. *)
Definition Table_built (t : Table) : Prop :=
  ∃ children,
    Table_updateColumns children
    = Ok (state_columns (Table_state t), Table_sortMap t).

(** The registry a list of instances fills in, in order. *)
Definition register_all (columns : list Instance)
    (sortMap : gmap string Instance) : gmap string Instance :=
  foldl (λ sm i, Instance_registerSortColumns i sm) sortMap columns.

(** The Column instances a list of instances holds, in registration
    order: a top-level column, or the children of a group. *)
Definition Instance_columns (i : Instance) : list Column :=
  match i with
  | ColumnInstance c => [c]
  | GroupInstance g => Group_columns g
  end.

Definition all_columns (columns : list Instance) : list Column :=
  concat (Instance_columns <$> columns).

(** [-r] on the outcome of a comparison. *)
Definition negated (r : result Z) : result Z :=
  match r with
  | Ok z => Ok (- z)%Z
  | Throw e => Throw e
  end.

(** A comparator whose result does not depend on the [descending] flag
    it is passed. *)
Definition ignores_descending (m : option SortMethod) : Prop :=
  match m with
  | Some (CustomSort f) =>
      ∀ a b column d d',
        f {| sort_a := a; sort_b := b; sort_descending := d;
             sort_column := column |}
        = f {| sort_a := a; sort_b := b; sort_descending := d';
               sort_column := column |}
  | _ => True
  end.

(** [this.props.sortMethod] of an instance. *)
Definition Instance_sortMethod (i : Instance) : option SortMethod :=
  match i with
  | ColumnInstance c => column_sortMethod (Column_props c)
  | GroupInstance g => group_sortMethod (Group_props g)
  end.

(** A child [updateColumns] accepts by itself: an element of type Column
    or Group. *)
Definition column_or_group (e : Child) : bool :=
  match e with
  | ColumnElement _ | GroupElement _ _ => true
  | _ => false
  end.

(** A child the Group constructor accepts: an element of type Column. *)
Definition column_element (e : Child) : bool :=
  match e with
  | ColumnElement _ => true
  | _ => false
  end.

(** Children that give the callback of the Group constructor nothing to
    reject: an array of Column elements, an object whose property values
    are Column elements, or nothing the callback is called on at all: no
    child, or a lone empty string, number, boolean, [null], [undefined],
    function or symbol.  A lone element is not among them, not even a
    Column element. *)
Definition column_elements (children : ChildrenProp Child) : bool :=
  match children with
  | NoChildren => true
  | ChildArray l => forallb column_element l
  | OnlyChild (ChildObject values) => forallb column_element values
  | OnlyChild (ChildString s) => String.eqb s ""
  | OnlyChild e => negb (isValidElement e)
  end.

(** The children the callback of [updateColumns] is called on, as it
    receives them: functions and symbols are left out, and [null] stands
    for a boolean and for [undefined]. *)
Definition Children_invoked (children : list Child) : list Child :=
  omap (λ e, match e with
             | ChildFunction | ChildSymbol => None
             | ChildBoolean _ | ChildUndefined => Some ChildNull
             | _ => Some e
             end) children.

(** The exception is the one a sortable Group without comparator raises. *)
Definition sortMethod_required : exn :=
  Error "sortMethod is required for sortable <Group>".

(** The header cells of the child columns of a group at [colIndex]. *)
Definition Group_subHeaders (t : Table) (g : Group) (colIndex : nat)
    : list Node :=
  tail (Group_renderHeader t g colIndex
          (state_sort (Table_state t)) (state_descending (Table_state t))).

(** The cells of the sub-header row: the child headers of every group, in
    order; a top-level column contributes none. *)
Definition subHeader_cells (t : Table) : list Node :=
  concat (imap (λ colIndex i,
                  match i with
                  | ColumnInstance _ => []
                  | GroupInstance g => Group_subHeaders t g colIndex
                  end)
               (state_columns (Table_state t))).

End Vocabulary.

(** ** Vocabulary of the further statements *)

Section Shape.
Context `{Host}.

(** The Column a Column element stands for. *)
Definition Child_column (e : Child) : option Column :=
  match e with
  | ColumnElement attrs => Some (Column_new (Column_elementProps attrs))
  | _ => None
  end.

(** The Columns the children of a Group stand for. *)
Definition Children_columns (children : ChildrenProp Child) : list Column :=
  match children with
  | ChildArray l => omap Child_column l
  | OnlyChild (ChildObject values) => omap Child_column values
  | _ => []
  end.




(** Props of a Group that name a sort order and bring no comparator. *)
Definition lacks_sortMethod (props : GroupProps) : bool :=
  truthy (group_sortId props)
  && negb (bool_decide (is_Some (group_sortMethod props))).



(** A Column that [registerSortColumns] writes under the key [k]: its
    sort id is [k], truthy and other than ["__proto__"], and it has a
    comparator. *)
Definition registers (c : Column) (k : string) : Prop :=
  column_sortId (Column_props c) = Some k ∧ k ≠ "" ∧ k ≠ "__proto__" ∧
  is_Some (column_sortMethod (Column_props c)).

Definition visible (c : Column) : bool := negb (column_hidden (Column_props c)).

Definition is_Null (n : Node) : bool :=
  match n with
  | Null => true
  | _ => false
  end.

(** The cells a row of rendered entries puts on the page: null entries
    render nothing, the array of a group is spliced in. *)
Definition row_leaves (cells : list Node) : list Node :=
  concat ((λ n, match n with
                | Null => []
                | ArrayNode l => filter (λ c, is_Null c = false) l
                | _ => [n]
                end) <$> cells).

(** The header cells that stand above exactly one column of the body: the
    cell of a top-level column, and the cells of the children of a group
    (the group's own cell, first in its array, spans them). *)
Definition header_leaves (cells : list Node) : list Node :=
  concat ((λ n, match n with
                | Null => []
                | ArrayNode l => filter (λ c, is_Null c = false) (tail l)
                | _ => [n]
                end) <$> cells).

(** The cells [Table.renderRow] computes for a row. *)
Definition Table_rowCells (t : Table) (rowIndex : JsKey) : list Node :=
  imap (λ colIndex c,
          Instance_renderCell c
            (data_get (table_data (Table_props t)) rowIndex) rowIndex colIndex)
       (state_columns (Table_state t)).

(** What running a click handler does to the table. *)
Definition Table_click (t : Table) (handler : PropValue) : Table :=
  match handler with
  | PropSortBy sortId => Table_sortBy t (Some sortId) None
  | _ => t
  end.

(** The keys of a mapping-shaped dataset are pairwise distinct, as the
    property names of an object are. *)
Definition distinct_keys (d : Dataset) : Prop :=
  match d with
  | ArrayData _ => True
  | ObjectData entries => NoDup entries.*1
  end.

(** The rows of a dataset, in its own order. *)
Definition data_rows (d : Dataset) : list Row :=
  match d with
  | ArrayData rows => rows
  | ObjectData entries => entries.*2
  end.

(** The indexes of a dataset: the positions of an array, the keys of a
    mapping, in its own order. *)
Definition dataset_keys (d : Dataset) : list JsKey :=
  match d with
  | ArrayData rows => NumKey <$> seq 0 (length rows)
  | ObjectData entries => StrKey <$> entries.*1
  end.

End Shape.

(** * Properties *)

(** ** The insertion sort implements the host interface *)

Section InsertionSort.
Context {A : Type} (cmp : A → A → result Z) (f : A → A → Z).
Hypothesis cmp_returns : ∀ x y, cmp x y = Ok (f x y).

Local Ltac solve_elem :=
  repeat first
    [ assumption | apply list_elem_of_here | apply list_elem_of_further ].

Lemma consistent_subseteq (l1 l2 : list A) :
  l1 ⊆ l2 → consistent f l2 → consistent f l1.
Proof.
  intros Hsub [Hanti Htrans]. split.
  - intros x y Hx Hy. apply Hanti; by apply Hsub.
  - intros x y z Hx Hy Hz. apply Htrans; by apply Hsub.
Qed.

Lemma insert_by_returns x l :
  ∃ l', insert_by cmp x l = Ok l' ∧ x :: l ≡ₚ l' ∧
        (consistent f (x :: l) → ordered_by f l → ordered_by f l').
Proof.
  induction l as [|y l IH]; simpl.
  - exists [x]. split; [done|]. split; [done|].
    intros _ _. repeat constructor.
  - rewrite cmp_returns. simpl.
    destruct (Z.leb_spec (f x y) 0) as [Hle|Hgt].
    + exists (x :: y :: l). split; [done|]. split; [done|].
      intros [_ Htrans] Hsorted. constructor; [done|].
      constructor; [done|].
      apply StronglySorted_inv in Hsorted as [_ Hall].
      rewrite Forall_forall in Hall. apply Forall_forall. intros z Hz.
      apply (Htrans x y z); [solve_elem..|done|by apply Hall].
    + destruct IH as (r & -> & Hperm & Hord). simpl.
      exists (y :: r). split; [done|]. split.
      * rewrite <- Hperm. apply perm_swap.
      * intros Hc Hsorted.
        apply StronglySorted_inv in Hsorted as [Hsorted Hall].
        constructor.
        -- apply Hord; [|done].
           eapply consistent_subseteq; [|exact Hc].
           intros z [->|Hz]%elem_of_cons; solve_elem.
        -- rewrite <- Hperm. constructor; [|done].
           destruct Hc as [Hanti _].
           apply (Hanti y x); [solve_elem..|lia].
Qed.

Lemma insertion_sort_returns l :
  ∃ l', insertion_sort cmp l = Ok l' ∧ l ≡ₚ l' ∧
        (consistent f l → ordered_by f l').
Proof.
  induction l as [|x l IH]; simpl.
  - exists []. split; [done|]. split; [done|]. intros _. constructor.
  - destruct IH as (s & -> & Hperm & Hord). simpl.
    destruct (insert_by_returns x s) as (l' & -> & Hperm' & Hord').
    exists l'. split; [done|]. split.
    + by rewrite Hperm.
    + intros Hc. apply Hord'.
      * eapply consistent_subseteq; [|exact Hc]. by rewrite Hperm.
      * apply Hord. eapply consistent_subseteq; [|exact Hc].
        intros z Hz. solve_elem.
Qed.

End InsertionSort.

#[global] Instance insertion_ArraySort : ArraySort := {|
  array_sort := @insertion_sort;
  array_sort_spec := @insertion_sort_returns
|}.

(** ** The sort registry *)

Section Registry.
Context `{Host}.

Lemma Column_register_sortable c sm :
  map_Forall (λ _ i, sortable_column i) sm →
  map_Forall (λ _ i, sortable_column i) (Column_registerSortColumns c sm).
Proof.
  intros Hsm. unfold Column_registerSortColumns.
  destruct (column_sortId (Column_props c)) as [s|] eqn:Hid; [|done].
  destruct (column_sortMethod (Column_props c)) as [m|] eqn:Hm; [|done].
  destruct (truthy (Some s)); [|done].
  unfold sortMap_set. destruct (String.eqb s "__proto__"); [done|].
  apply map_Forall_insert_2; [|done].
  exists c. split; [done|]. rewrite Hm. by eexists.
Qed.

Lemma Group_register_sortable g sm :
  map_Forall (λ _ i, sortable_column i) sm →
  map_Forall (λ _ i, sortable_column i) (Group_registerSortColumns g sm).
Proof.
  unfold Group_registerSortColumns, Group_sortId.
  generalize (Group_columns g). intros l. revert sm.
  induction l as [|c l IH]; intros sm Hsm; simpl; [done|].
  by apply IH, Column_register_sortable.
Qed.

Lemma Instance_register_sortable i sm :
  map_Forall (λ _ i, sortable_column i) sm →
  map_Forall (λ _ i, sortable_column i) (Instance_registerSortColumns i sm).
Proof.
  destruct i; [apply Column_register_sortable|apply Group_register_sortable].
Qed.

Lemma updateColumns_from_cons e rest sm :
  updateColumns_from (e :: rest) sm
  = visited ← Children_visit e;
    match visited with
    | None => updateColumns_from rest sm
    | Some e' =>
        instance ← Table_child e';
        r ← updateColumns_from rest (Instance_registerSortColumns instance sm);
        Ok (instance :: r.1, r.2)
    end.
Proof. reflexivity. Qed.

Lemma Children_invoked_cons e rest :
  Children_invoked (e :: rest)
  = match Children_visit e with
    | Ok (Some e') => e' :: Children_invoked rest
    | Ok None => Children_invoked rest
    | Throw _ => e :: Children_invoked rest
    end.
Proof. by destruct e. Qed.

(** [updateColumns] instantiates the children in order and registers each
    instance as soon as it is built. *)
Lemma updateColumns_from_Ok children sm columns sm' :
  updateColumns_from children sm = Ok (columns, sm') →
  map_result Table_child (Children_invoked children) = Ok columns ∧
  sm' = register_all columns sm.
Proof.
  revert sm columns sm'.
  induction children as [|e rest IH]; intros sm columns sm'.
  - intros [= <- <-]. done.
  - rewrite updateColumns_from_cons, Children_invoked_cons.
    destruct (Children_visit e) as [[e'|]|]; cbn [mbind result_bind];
      [|apply IH|done].
    cbn [map_result].
    destruct (Table_child e') as [i|]; cbn [mbind result_bind]; [|done].
    destruct (updateColumns_from rest _) as [[cols sm'']|] eqn:Hrest;
      cbn [mbind result_bind]; [|done].
    intros [= <- <-]. apply IH in Hrest as [-> ->]. done.
Qed.

Lemma register_all_sortable columns sm :
  map_Forall (λ _ i, sortable_column i) sm →
  map_Forall (λ _ i, sortable_column i) (register_all columns sm).
Proof.
  revert sm. induction columns as [|i l IH]; intros sm Hsm; simpl; [done|].
  by apply IH, Instance_register_sortable.
Qed.

(** Every entity the registry of a built table holds is a Column with a
    comparator; in particular no Group is ever registered. *)
Lemma Table_built_sortable t k i :
  Table_built t → Table_sortMap t !! k = Some i → sortable_column i.
Proof.
  intros [children Hbuilt] Hk.
  apply updateColumns_from_Ok in Hbuilt as [_ Hsm].
  rewrite Hsm in Hk.
  eapply (register_all_sortable _ ∅); [apply map_Forall_empty|exact Hk].
Qed.

Lemma Table_built_no_group t k g :
  Table_built t → Table_sortMap t !! k ≠ Some (GroupInstance g).
Proof.
  intros Hbuilt Hk.
  destruct (Table_built_sortable _ _ _ Hbuilt Hk) as (c & Hc & _). done.
Qed.

(** A top-level Column with a truthy sort id and a comparator is found in
    the registry under its sort id, unless an instance built after it
    registers the same sort id again. *)
Lemma Column_register_lookup c sm s :
  column_sortId (Column_props c) = Some s → s ≠ "" → s ≠ "__proto__" →
  is_Some (column_sortMethod (Column_props c)) →
  Column_registerSortColumns c sm !! s = Some (ColumnInstance c).
Proof.
  intros Hid Hs Hproto [m Hm]. unfold Column_registerSortColumns, sortMap_set.
  rewrite Hid, Hm. simpl.
  destruct (String.eqb_spec s ""); [done|]. simpl.
  destruct (String.eqb_spec s "__proto__"); [done|].
  apply lookup_insert_eq.
Qed.

Lemma Column_register_other c sm s :
  column_sortId (Column_props c) ≠ Some s →
  Column_registerSortColumns c sm !! s = sm !! s.
Proof.
  intros Hid. unfold Column_registerSortColumns.
  destruct (column_sortId (Column_props c)) as [s'|]; [|done].
  destruct (column_sortMethod (Column_props c)); [|done].
  destruct (truthy (Some s')); [|done].
  unfold sortMap_set. destruct (String.eqb s' "__proto__"); [done|].
  apply lookup_insert_ne. congruence.
Qed.

(** Registration only ever goes through the Column method: the registry
    is the one the Column instances fill in, one after the other. *)
Lemma register_all_columns columns sm :
  register_all columns sm
  = foldl (λ sm c, Column_registerSortColumns c sm) sm (all_columns columns).
Proof.
  revert sm. induction columns as [|i l IH]; intros sm; simpl; [done|].
  unfold all_columns. simpl. rewrite foldl_app. rewrite IH.
  destruct i as [c|g]; reflexivity.
Qed.

(** X6.  The Column half of the registry: a Column, at top level or inside a
    Group, with a comparator and a sort id that is truthy and is not
    "__proto__" is registered under its sort id, provided no Column after
    it carries the same sort id. *)
Lemma Table_built_column_registered t before c after s :
  Table_built t →
  all_columns (state_columns (Table_state t)) = before ++ c :: after →
  column_sortId (Column_props c) = Some s → s ≠ "" → s ≠ "__proto__" →
  is_Some (column_sortMethod (Column_props c)) →
  Forall (λ c', column_sortId (Column_props c') ≠ Some s) after →
  Table_sortMap t !! s = Some (ColumnInstance c).
Proof.
  intros [children Hbuilt] Hall Hid Hs Hproto Hm Hafter.
  apply updateColumns_from_Ok in Hbuilt as [_ ->].
  rewrite register_all_columns, Hall, foldl_app. simpl.
  generalize (foldl (λ sm c0, Column_registerSortColumns c0 sm) ∅ before).
  intros sm.
  assert (Column_registerSortColumns c sm !! s = Some (ColumnInstance c))
    as Hreg by by apply Column_register_lookup.
  revert Hreg. generalize (Column_registerSortColumns c sm). clear sm Hall.
  induction Hafter as [|c' l Hc' _ IH]; intros sm Hreg; cbn [foldl]; [done|].
  apply IH. by rewrite Column_register_other.
Qed.



(** The constructor builds a table, and the two state changes keep it
    built. *)
Lemma Table_new_built props t : Table_new props = Ok t → Table_built t.
Proof.
  unfold Table_new.
  destruct (Table_updateColumns _) as [[cols sm]|] eqn:Hup; simpl; [|done].
  intros [= <-]. by eexists.
Qed.

Lemma Table_sortBy_built t sort descending :
  Table_built t → Table_built (Table_sortBy t sort descending).
Proof. intros [children Hc]. by exists children. Qed.

Lemma Table_componentWillReceiveProps_built t props t' :
  Table_built t → Table_componentWillReceiveProps t props = Ok t' →
  Table_built t'.
Proof.
  intros Hbuilt. unfold Table_componentWillReceiveProps.
  destruct (children_differ _ _).
  - destruct (Table_updateColumns _) as [[cols sm]|] eqn:Hup; simpl; [|done].
    intros [= <-]. by eexists.
  - by intros [= <-].
Qed.

End Registry.

(** C1, at a failing input.  The children are one Group that carries the
    sort id "total" and a comparator.  [updateColumns] accepts them and
    builds the Group, yet the registry has no entry for "total": the
    group's [registerSortColumns] tests [this.sortId], a field no
    constructor assigns, where the Column method reads
    [this.props.sortId]. *)
Theorem sortable_group_is_not_registered :
  ∃ g sm,
    Table_updateColumns group_children = Ok ([GroupInstance g], sm) ∧
    group_sortId (Group_props g) = Some "total" ∧
    is_Some (group_sortMethod (Group_props g)) ∧
    sm !! "total" = None.
Proof.
  eexists _, _. split; [reflexivity|].
  split; [reflexivity|]. split; [by eexists|].
  vm_compute. reflexivity.
Qed.

(** ** Sorted row order *)

Section Sorting.
Context `{Host} `{ArraySort}.

Lemma imap_index_from {A} (l : list A) k :
  imap (λ i _, NumKey (k + i)) l = NumKey <$> seq k (length l).
Proof.
  revert k. induction l as [|x l IH]; intros k; simpl; [done|].
  rewrite Nat.add_0_r. f_equal.
  rewrite <- IH. apply imap_ext. intros i y _. simpl. f_equal. lia.
Qed.

(** The indexes lodash collects are the indexes of the dataset, unless
    the dataset is an array-like mapping. *)
Lemma data_indexes_keys d :
  array_like d = None → data_indexes d = dataset_keys d.
Proof.
  destruct d as [rows|entries]; cbn [data_indexes dataset_keys].
  - intros _. apply (imap_index_from rows 0).
  - intros ->. by rewrite <- list_fmap_compose.
Qed.

Lemma data_indexes_array_like d n :
  array_like d = Some n → data_indexes d = NumKey <$> seq 0 (N.to_nat n).
Proof. destruct d as [rows|entries]; [done|]. simpl. by intros ->. Qed.

Lemma lodash_map_indexes_keys d :
  array_like d = None → lodash_map_indexes d = Ok (dataset_keys d).
Proof.
  intros Hlike. unfold lodash_map_indexes.
  by rewrite Hlike, data_indexes_keys.
Qed.

Lemma lodash_map_indexes_returns d :
  (∀ n, array_like d = Some n → (n < 2 ^ 32)%N) →
  lodash_map_indexes d = Ok (data_indexes d).
Proof.
  intros Hlen. unfold lodash_map_indexes.
  destruct (array_like d) as [n|]; [|done].
  specialize (Hlen n eq_refl). apply N.ltb_lt in Hlen. by rewrite Hlen.
Qed.


Lemma assoc_lookup entries k (row : Row) :
  NoDup entries.*1 → (k, row) ∈ entries → assoc k entries = Some row.
Proof.
  induction entries as [|[k' row'] l IH]; simpl.
  - intros _ Hin. by apply elem_of_nil in Hin.
  - intros [Hk' Hl]%NoDup_cons [[= -> ->]|Hin]%elem_of_cons.
    + by rewrite String.eqb_refl.
    + destruct (String.eqb_spec k k') as [->|Hne]; [|by apply IH].
      destruct Hk'. apply list_elem_of_fmap. by exists (k', row).
Qed.

(** Reading the dataset at its own indexes gives its rows, in order. *)
Lemma data_get_dataset_keys d :
  distinct_keys d → data_get d <$> dataset_keys d = data_rows d.
Proof.
  destruct d as [rows|entries]; cbn [dataset_keys data_rows distinct_keys].
  - intros _. apply list_eq. intros i.
    rewrite <- list_fmap_compose, list_lookup_fmap.
    destruct (decide (i < length rows)) as [Hi|Hi].
    + rewrite lookup_seq_lt by done. simpl.
      destruct (lookup_lt_is_Some_2 rows i Hi) as [row Hrow].
      by rewrite Hrow.
    + rewrite lookup_seq_ge by lia. simpl. symmetry.
      apply lookup_ge_None. lia.
  - intros Hkeys. rewrite <- !list_fmap_compose.
    apply list_fmap_ext. intros i [k row] Hi. simpl.
    rewrite (assoc_lookup entries k row); [done|done|].
    by eapply list_elem_of_lookup_2.
Qed.


End Sorting.

Lemma amount_table_built : Table_built amount_table.
Proof. exists [ColumnElement amount_column]. reflexivity. Qed.



(** ** Header layout *)

Section Rendering.
Context `{Host}.

Lemma with_onClick_lookup_ne sortId (props : gmap string PropValue) k :
  k ≠ "onClick" → with_onClick sortId props !! k = props !! k.
Proof.
  intros Hk. unfold with_onClick.
  destruct sortId as [s|]; [|done].
  destruct (truthy (Some s)); [|done].
  by rewrite lookup_insert_ne.
Qed.

(** The header cell of a visible top-level column spans both rows. *)
Lemma Column_renderHeader_rowSpan t c colIndex sort descending :
  column_hidden (Column_props c) = false →
  ∃ key props content,
    Column_renderHeader t c colIndex sort descending None None
    = Element "th" key props content ∧
    props !! "rowSpan" = Some (PropNum 2).
Proof.
  intros Hvisible. unfold Column_renderHeader. rewrite Hvisible.
  eexists _, _, _. split; [reflexivity|].
  rewrite with_onClick_lookup_ne by done. apply lookup_insert_eq.
Qed.

(** The header of a group: its own cell, spanning as many columns as the
    group has children, followed by one entry per child. *)
Lemma Group_renderHeader_colSpan t g colIndex sort descending :
  ∃ key props content,
    Group_renderHeader t g colIndex sort descending
    = Element "th" key props content ::
      imap (λ groupIndex c,
              Column_renderHeader t c colIndex sort descending
                (Some groupIndex)
                (Some (group_subHeaderProps (Group_props g)
                   {| header_colIndex := colIndex;
                      header_groupIndex := Some groupIndex;
                      header_sort := Column_isSorted c sort;
                      header_descending := descending |})))
           (Group_columns g) ∧
    props !! "colSpan" = Some (PropNum (Z.of_nat (length (Group_columns g)))).
Proof.
  unfold Group_renderHeader. eexists _, _, _. split; [reflexivity|].
  rewrite with_onClick_lookup_ne by done. apply lookup_insert_eq.
Qed.

Lemma sub_cells_headerCells t :
  concat (sub_cells <$> Table_headerCells t) = subHeader_cells t.
Proof.
  unfold Table_headerCells, subHeader_cells. rewrite fmap_imap.
  f_equal. apply imap_ext. intros i [c|g] _; simpl; [|done].
  unfold Column_renderHeader.
  by destruct (column_hidden (Column_props c)).
Qed.

Lemma concat_imap_nil {A B} (F : nat → A → list B) (P : A → Prop) l :
  (∀ k x, F k x = [] ↔ P x) → concat (imap F l) = [] ↔ Forall P l.
Proof.
  revert F. induction l as [|x l IH]; intros F HF; simpl.
  - split; [constructor|done].
  - split.
    + intros [Hx Hl]%app_eq_nil. constructor; [by apply (HF 0)|].
      apply (IH (F ∘ S)); [intros; apply HF|exact Hl].
    + intros [Hx Hl]%Forall_cons. apply app_nil. split.
      * by apply HF.
      * apply (IH (F ∘ S)); [intros; apply HF|exact Hl].
Qed.

(** The sub-header row has no cell exactly when no group has a child
    column, hidden or not. *)
Lemma subHeader_cells_nil t :
  subHeader_cells t = [] ↔
  ∀ g, GroupInstance g ∈ state_columns (Table_state t) → Group_columns g = [].
Proof.
  unfold subHeader_cells.
  rewrite (concat_imap_nil _
    (λ i, match i with
          | ColumnInstance _ => True
          | GroupInstance g => Group_columns g = []
          end)).
  - rewrite Forall_forall. split.
    + intros Hall g Hg. apply (Hall _ Hg).
    + intros Hall [c|g] Hi; [done|]. by apply Hall.
  - intros k [c|g]; [done|].
    unfold Group_subHeaders, Group_renderHeader. simpl.
    destruct (Group_columns g); simpl; split; done.
Qed.

(** C2.  The header is a main row followed by the sub-header row.  The
    main row has one entry per top-level instance.  The entry of a
    top-level Column is its own header cell, which carries rowSpan 2 when
    the column is visible; a Column adds nothing to the sub-header row.
    The entry of a Group is one cell whose colSpan is the number of its
    child columns, and the header cells of those children are the group's
    share of the sub-header row.  The sub-header row holds the shares of
    all groups in order, and it is null exactly when there is no such
    cell. *)
Theorem header_layout (t : Table) :
  let columns := state_columns (Table_state t) in
  let sort := state_sort (Table_state t) in
  let descending := state_descending (Table_state t) in
  ∃ thead_props tr_props main sub,
    Table_renderHeader t
    = Element "thead" None thead_props
        [Element "tr" None tr_props [ArrayNode main]; sub] ∧
    length main = length columns ∧
    (∀ i c, columns !! i = Some (ColumnInstance c) →
       main !! i = Some (Column_renderHeader t c i sort descending None None) ∧
       (column_hidden (Column_props c) = false →
        ∃ key props content,
          main !! i = Some (Element "th" key props content) ∧
          props !! "rowSpan" = Some (PropNum 2))) ∧
    (∀ i g, columns !! i = Some (GroupInstance g) →
       ∃ key props content,
         main !! i = Some (Element "th" key props content) ∧
         props !! "colSpan"
         = Some (PropNum (Z.of_nat (length (Group_columns g)))) ∧
         Group_subHeaders t g i
         = imap (λ groupIndex c,
                   Column_renderHeader t c i sort descending (Some groupIndex)
                     (Some (group_subHeaderProps (Group_props g)
                        {| header_colIndex := i;
                           header_groupIndex := Some groupIndex;
                           header_sort := Column_isSorted c sort;
                           header_descending := descending |})))
                (Group_columns g)) ∧
    (sub = Null ↔ subHeader_cells t = []) ∧
    (subHeader_cells t ≠ [] →
     ∃ sub_props,
       sub = Element "tr" None sub_props [ArrayNode (subHeader_cells t)]).
Proof.
  intros columns sort descending.
  unfold Table_renderHeader, Table_renderMainHeader.
  eexists _, _, _, _. split; [reflexivity|].
  split; [|split; [|split; [|split]]].
  - rewrite length_fmap. unfold Table_headerCells. by rewrite length_imap.
  - intros i c Hi.
    assert (main_cell <$> Table_headerCells t !! i
            = Some (Column_renderHeader t c i sort descending None None))
      as Hmain.
    { unfold Table_headerCells. rewrite list_lookup_imap.
      fold columns. rewrite Hi. simpl. f_equal.
      unfold Column_renderHeader.
      by destruct (column_hidden (Column_props c)). }
    rewrite list_lookup_fmap. split; [exact Hmain|].
    intros Hvisible.
    destruct (Column_renderHeader_rowSpan t c i sort descending Hvisible)
      as (key & props & content & Heq & Hspan).
    exists key, props, content. by rewrite Hmain, Heq.
  - intros i g Hi.
    destruct (Group_renderHeader_colSpan t g i sort descending)
      as (key & props & content & Heq & Hspan).
    exists key, props, content. split; [|split; [exact Hspan|]].
    + rewrite list_lookup_fmap. unfold Table_headerCells.
      rewrite list_lookup_imap. fold columns. rewrite Hi.
      cbn [fmap option_fmap option_map Instance_renderHeader].
      fold sort descending. by rewrite Heq.
    + unfold Group_subHeaders. fold sort descending. by rewrite Heq.
  - unfold Table_renderSubHeader. rewrite sub_cells_headerCells.
    destruct (subHeader_cells t); simpl; split; done.
  - intros Hcells. unfold Table_renderSubHeader.
    rewrite sub_cells_headerCells.
    destruct (subHeader_cells t); [done|]. simpl. by eexists.
Qed.

End Rendering.

(** ** Sorting indicator and hidden columns *)

Section Cells.
Context `{Host}.

(** C7.  [Table.renderSorting] applies the [renderSorting] hook, with the
    current descending flag, when the sort id is truthy and equal to the
    current sort; in every other case it returns the cell content
    unchanged.  The content of the header cell of every visible Column and
    of every Group is [renderSorting] of its own sort id and header, so
    the indicator appears on those entities only. *)
Theorem renderSorting_only_current (t : Table) :
  let current := state_sort (Table_state t) in
  let descending := state_descending (Table_state t) in
  let indicator cell :=
    table_renderSorting (Table_props t)
      {| sorting_cell := cell; sorting_descending := descending |} in
  (∀ sortId cell,
     (truthy sortId = true ∧ sortId = current →
      Table_renderSorting t sortId cell = indicator cell) ∧
     (¬ (truthy sortId = true ∧ sortId = current) →
      Table_renderSorting t sortId cell = cell)) ∧
  (∀ c colIndex groupIndex groupProps,
     column_hidden (Column_props c) = false →
     ∃ key props,
       Column_renderHeader t c colIndex current descending groupIndex groupProps
       = Element "th" key props
           [Table_renderSorting t (column_sortId (Column_props c))
              (column_header (Column_props c))]) ∧
  (∀ g colIndex,
     ∃ key props,
       head (Group_renderHeader t g colIndex current descending)
       = Some (Element "th" key props
                 [Table_renderSorting t (group_sortId (Group_props g))
                    (group_header (Group_props g))])).
Proof.
  intros current descending indicator. split; [|split].
  - intros sortId cell. unfold Table_renderSorting, strict_eq.
    fold current descending. split.
    + intros [-> ->]. simpl. by rewrite bool_decide_eq_true_2.
    + intros Hnot. destruct (truthy sortId) eqn:Htruthy; simpl; [|done].
      rewrite bool_decide_eq_false_2; [done|]. intros Heq. by apply Hnot.
  - intros c colIndex groupIndex groupProps Hvisible.
    unfold Column_renderHeader. rewrite Hvisible. by eexists _, _.
  - intros g colIndex. unfold Group_renderHeader. by eexists _, _.
Qed.

(** C10.  A hidden Column renders nothing: its header and its data cells
    are null.  Inside a Group it still counts: the colSpan of the group's
    header cell is the number of all child columns, which exceeds the
    number of visible ones, the hidden column fills position [k] of the
    group's header and cell arrays with null, and every child is rendered
    with its position among all children as group index. *)
Theorem hidden_column_renders_nothing (t : Table) (c : Column) :
  column_hidden (Column_props c) = true →
  (∀ colIndex sort descending groupIndex groupProps,
     Column_renderHeader t c colIndex sort descending groupIndex groupProps
     = Null) ∧
  (∀ row rowIndex colIndex groupIndex groupProps,
     Column_renderCell c row rowIndex colIndex groupIndex groupProps = Null) ∧
  (∀ g k, Group_columns g !! k = Some c →
     ∀ colIndex sort descending row rowIndex,
       (∃ key props content,
          head (Group_renderHeader t g colIndex sort descending)
          = Some (Element "th" key props content) ∧
          props !! "colSpan"
          = Some (PropNum (Z.of_nat (length (Group_columns g)))) ∧
          length (filter (λ c', column_hidden (Column_props c') = false)
                    (Group_columns g))
          < length (Group_columns g)) ∧
       tail (Group_renderHeader t g colIndex sort descending) !! k
       = Some Null ∧
       Group_renderCell g row rowIndex colIndex !! k = Some Null ∧
       (∀ k' c', Group_columns g !! k' = Some c' →
          tail (Group_renderHeader t g colIndex sort descending) !! k'
          = Some (Column_renderHeader t c' colIndex sort descending (Some k')
                    (Some (group_subHeaderProps (Group_props g)
                       {| header_colIndex := colIndex;
                          header_groupIndex := Some k';
                          header_sort := Column_isSorted c' sort;
                          header_descending := descending |}))) ∧
          Group_renderCell g row rowIndex colIndex !! k'
          = Some (Column_renderCell c' row rowIndex colIndex (Some k')
                    (Some (group_tdProps (Group_props g)
                       {| gcell_row := row; gcell_rowIndex := rowIndex;
                          gcell_columnIndex := colIndex;
                          gcell_groupIndex := k' |}))))).
Proof.
  intros Hhidden.
  assert (∀ colIndex sort descending groupIndex groupProps,
    Column_renderHeader t c colIndex sort descending groupIndex groupProps
    = Null) as Hheader.
  { intros. unfold Column_renderHeader. by rewrite Hhidden. }
  assert (∀ row rowIndex colIndex groupIndex groupProps,
    Column_renderCell c row rowIndex colIndex groupIndex groupProps = Null)
    as Hcell.
  { intros. unfold Column_renderCell. by rewrite Hhidden. }
  split; [exact Hheader|]. split; [exact Hcell|].
  intros g k Hk colIndex sort descending row rowIndex.
  assert (∀ k' c', Group_columns g !! k' = Some c' →
    tail (Group_renderHeader t g colIndex sort descending) !! k'
    = Some (Column_renderHeader t c' colIndex sort descending (Some k')
              (Some (group_subHeaderProps (Group_props g)
                 {| header_colIndex := colIndex;
                    header_groupIndex := Some k';
                    header_sort := Column_isSorted c' sort;
                    header_descending := descending |}))) ∧
    Group_renderCell g row rowIndex colIndex !! k'
    = Some (Column_renderCell c' row rowIndex colIndex (Some k')
              (Some (group_tdProps (Group_props g)
                 {| gcell_row := row; gcell_rowIndex := rowIndex;
                    gcell_columnIndex := colIndex;
                    gcell_groupIndex := k' |})))) as Hslots.
  { intros k' c' Hk'. unfold Group_renderHeader, Group_renderCell.
    cbn [tail]. rewrite !list_lookup_imap, Hk'. done. }
  split; [|split; [|split; [|exact Hslots]]].
  - destruct (Group_renderHeader_colSpan t g colIndex sort descending)
      as (key & props & content & Heq & Hspan).
    exists key, props, content. rewrite Heq. split; [done|].
    split; [exact Hspan|].
    clear -Hk Hhidden. revert k Hk.
    induction (Group_columns g) as [|c' l IH]; intros k Hk; [done|].
    rewrite filter_cons. destruct k as [|k]; simpl in Hk.
    + injection Hk as ->. rewrite decide_False by (rewrite Hhidden; done).
      pose proof (length_filter (λ c', column_hidden (Column_props c') = false) l).
      simpl. lia.
    + specialize (IH k Hk). case_decide; simpl; lia.
  - destruct (Hslots k c Hk) as [-> _]. by rewrite Hheader.
  - destruct (Hslots k c Hk) as [_ ->]. by rewrite Hcell.
Qed.

End Cells.

Lemma hidden_column_renders_nothing_witness :
  Column_renderHeader amount_table (Column_new hidden_column) 0 None false
    None None = Null ∧
  Column_renderCell (Column_new hidden_column) None (NumKey 0) 0 None None
  = Null.
Proof.
  destruct (hidden_column_renders_nothing amount_table
              (Column_new hidden_column) eq_refl) as (Hheader & Hcell & _).
  split; [apply Hheader|apply Hcell].
Defined.

(** ** Sort state *)

Section State.
Context `{Host}.

(** C8.  [sortBy(s)] without a direction makes [s] the current sort; the
    descending flag is flipped when [s] was already the current sort and
    is false otherwise.  [sortBy(s, d)] sets the state to [(s, d)].  The
    columns, the props and the registry are not touched. *)
Theorem sortBy_state (t : Table) (s : option string) :
  let current := state_sort (Table_state t) in
  let flag := state_descending (Table_state t) in
  state_sort (Table_state (Table_sortBy t s None)) = s ∧
  (s = current →
   state_descending (Table_state (Table_sortBy t s None)) = negb flag) ∧
  (s ≠ current →
   state_descending (Table_state (Table_sortBy t s None)) = false) ∧
  (∀ d,
     state_sort (Table_state (Table_sortBy t s (Some d))) = s ∧
     state_descending (Table_state (Table_sortBy t s (Some d))) = d) ∧
  (∀ d,
     state_columns (Table_state (Table_sortBy t s d))
     = state_columns (Table_state t) ∧
     Table_props (Table_sortBy t s d) = Table_props t ∧
     Table_sortMap (Table_sortBy t s d) = Table_sortMap t).
Proof.
  intros current flag. unfold Table_sortBy, Table_validateProps, strict_eq.
  simpl. fold current flag. split; [done|]. split; [|split; [|split]].
  - intros Heq. by rewrite bool_decide_eq_true_2.
  - intros Hne. by rewrite bool_decide_eq_false_2.
  - done.
  - done.
Qed.

(** C6.  On new props whose [children] is another array,
    [componentWillReceiveProps] runs [updateColumns] over the new children
    from an empty registry and installs the instances and the registry it
    returns.  On new props with the same [children] array the component is
    left as it is.  Whenever the method returns, the sort id and the
    direction are the ones before the call, and after a rebuild the
    instances are those built, in order, for the children React calls
    back on, and the registry is what the new instances registered, in
    order, into an empty one. *)
Theorem componentWillReceiveProps_rebuilds (t : Table) (props : TableProps) :
  let old := table_children (Table_props t) in
  let new := table_children props in
  (children_ref old ≠ children_ref new →
   Table_componentWillReceiveProps t props
   = r ← updateColumns_from (children_nodes new) ∅;
     Ok {| Table_props := Table_props t;
           Table_state :=
             {| state_sort := state_sort (Table_state t);
                state_descending := state_descending (Table_state t);
                state_columns := r.1 |};
           Table_sortMap := r.2 |}) ∧
  (children_ref old = children_ref new →
   Table_componentWillReceiveProps t props = Ok t) ∧
  (∀ t', Table_componentWillReceiveProps t props = Ok t' →
     state_sort (Table_state t') = state_sort (Table_state t) ∧
     state_descending (Table_state t') = state_descending (Table_state t) ∧
     (children_ref old ≠ children_ref new →
      map_result Table_child (Children_invoked (children_nodes new))
      = Ok (state_columns (Table_state t')) ∧
      Table_sortMap t' = register_all (state_columns (Table_state t')) ∅)).
Proof.
  intros old new.
  unfold Table_componentWillReceiveProps, children_differ, Table_updateColumns,
    Table_validateProps.
  fold old new.
  destruct (Nat.eqb_spec (children_ref old) (children_ref new)) as [Heq|Hne];
    simpl.
  - split; [done|]. split; [done|]. intros t' [= <-]. done.
  - split; [done|]. split; [done|]. intros t'.
    destruct (updateColumns_from (children_nodes new) ∅)
      as [[cols sm]|] eqn:Hup; simpl; [|done].
    intros [= <-]. simpl. split; [done|]. split; [done|]. intros _.
    by apply updateColumns_from_Ok in Hup.
Qed.

End State.

(** ** Shape validation *)

Section Validation.
Context `{Host}.

Lemma Group_child_Throw e x :
  Group_child e = Throw x → ∃ msg, x = TypeError msg.
Proof. destruct e; simpl; intros [= <-]; by eexists. Qed.

Lemma Group_child_Ok e :
  column_element e = true → ∃ c, Group_child e = Ok c.
Proof. destruct e; simpl; intros [=]. by eexists. Qed.

Lemma Group_child_invalid e :
  column_element e = false → throws_TypeError (Group_child e) = true.
Proof. by destruct e. Qed.

(** The children of a Group are checked in order, before anything else. *)
Lemma Group_columns_Ok children :
  forallb column_element children = true →
  map_result Group_child children = Ok (omap Child_column children).
Proof.
  induction children as [|e l IH]; simpl; [done|].
  intros [He Hl]%andb_prop. destruct e; try discriminate He. simpl.
  by rewrite (IH Hl).
Qed.

Lemma Group_columns_Throw children x :
  map_result Group_child children = Throw x → ∃ msg, x = TypeError msg.
Proof.
  induction children as [|e l IH]; simpl; [done|].
  destruct (Group_child e) as [c|y] eqn:He; simpl.
  - destruct (map_result Group_child l); simpl; [done|].
    intros [= <-]. by apply IH.
  - intros [= <-]. by eapply Group_child_Throw.
Qed.

Lemma Group_columns_invalid children :
  forallb column_element children = false →
  throws_TypeError (map_result Group_child children) = true.
Proof.
  induction children as [|e l IH]; simpl; [done|].
  destruct (column_element e) eqn:He; simpl.
  - intros Hl. destruct (Group_child_Ok e He) as [c ->]. simpl.
    specialize (IH Hl). by destruct (map_result Group_child l).
  - intros _. pose proof (Group_child_invalid e He) as Hthrow.
    by destruct (Group_child e).
Qed.

(** What [_.map] over the children of a Group comes to: the Columns the
    children stand for when the callback finds nothing to reject, a
    TypeError otherwise. *)
Lemma Group_children_Ok children :
  column_elements children = true →
  Group_children children = Ok (Children_columns children).
Proof.
  destruct children as [|e|l]; simpl; [done| |apply Group_columns_Ok].
  destruct e; simpl; try done.
  - destruct (String.eqb s ""); done.
  - apply Group_columns_Ok.
Qed.

Lemma Group_children_Throw children x :
  Group_children children = Throw x → ∃ msg, x = TypeError msg.
Proof.
  destruct children as [|e|l]; simpl; [done| |apply Group_columns_Throw].
  destruct e; simpl; try done; try (intros [= <-]; by eexists).
  - destruct (String.eqb s ""); [done|]. intros [= <-]. by eexists.
  - apply Group_columns_Throw.
Qed.

Lemma Group_children_invalid children :
  column_elements children = false →
  throws_TypeError (Group_children children) = true.
Proof.
  destruct children as [|e|l]; simpl; [done| |apply Group_columns_invalid].
  destruct e; simpl; try done.
  - destruct (String.eqb s ""); done.
  - apply Group_columns_invalid.
Qed.

(** C4.  A Group whose props carry a truthy sort id and no comparator
    cannot be constructed: the constructor throws, and what it throws is
    the "sortMethod is required" Error as soon as the children give its
    callback nothing to reject (an offending child is reported first, by
    a TypeError).  With a comparator, or without a sort id, the
    constructor never throws that Error, and it returns the Group when
    the children give the callback nothing to reject. *)
Theorem Group_new_requires_sortMethod (props : GroupProps)
    (children : ChildrenProp Child) :
  (truthy (group_sortId props) = true ∧ group_sortMethod props = None →
   ∃ e, Group_new props children = Throw e ∧
        (column_elements children = true → e = sortMethod_required)) ∧
  (truthy (group_sortId props) = false ∨ is_Some (group_sortMethod props) →
   Group_new props children ≠ Throw sortMethod_required ∧
   (column_elements children = true →
    ∃ g, Group_new props children = Ok g)).
Proof.
  unfold Group_new. split.
  - intros [Hid Hm]. rewrite Hid, Hm.
    rewrite bool_decide_eq_false_2 by (intros [? [=]]). simpl.
    destruct (Group_children children) as [cs|x] eqn:Hcs; simpl.
    + exists sortMethod_required. done.
    + exists x. split; [done|]. intros Hall.
      rewrite (Group_children_Ok children Hall) in Hcs. done.
  - intros Hor.
    assert (truthy (group_sortId props)
            && negb (bool_decide (is_Some (group_sortMethod props))) = false)
      as ->.
    { destruct Hor as [->|Hm]; [done|].
      rewrite bool_decide_eq_true_2 by done. apply andb_false_r. }
    split.
    + destruct (Group_children children) as [cs|x] eqn:Hcs; simpl;
        [done|].
      intros [= ->]. by apply Group_children_Throw in Hcs as [msg [=]].
    + intros Hall. rewrite (Group_children_Ok children Hall).
      simpl. by eexists.
Qed.




(** ** Direction of a comparison *)

(** C9, as the code has it.  For a Column or a Group whose comparator
    does not look at the [descending] flag it is passed (the default
    comparator is one), the descending comparison of two rows is the
    negation of the ascending one; when the comparison throws, it throws
    the same exception in both directions. *)
Theorem sort_descending_negates (i : Instance) (a b : Row) :
  ignores_descending (Instance_sortMethod i) →
  Instance_sort i a b true = negated (Instance_sort i a b false).
Proof.
  assert (∀ m this, ignores_descending m →
    sort_with m this a b true = negated (sort_with m this a b false)) as Hsort.
  { intros [[|f]|] this Hm; unfold sort_with; simpl; [| |done].
    - unfold defaultSort. simpl.
      destruct (SortSubject_value this a); simpl; [|done].
      destruct (SortSubject_value this b); simpl; [|done].
      f_equal. lia.
    - rewrite (Hm a b this true false). f_equal. lia. }
  intros Hm. destruct i as [c|g]; apply Hsort, Hm.
Qed.

End Validation.



(** C9, at a counterexample.  The comparator [missing_last] reads the
    [descending] flag; on a missing row against the row 5 the comparison
    is 1 in both directions, not 1 and -1. *)
Lemma sort_descending_not_negation :
  Column_sort (Column_new missing_last_column) None (Some 5%Z) true = Ok 1%Z ∧
  Column_sort (Column_new missing_last_column) None (Some 5%Z) false = Ok 1%Z ∧
  Column_sort (Column_new missing_last_column) None (Some 5%Z) true
  ≠ negated (Column_sort (Column_new missing_last_column) None (Some 5%Z) false).
Proof. repeat split. discriminate. Qed.

Lemma sort_descending_negates_witness :
  Instance_sort (ColumnInstance (Column_new amount_column)) (Some 3%Z) (Some 1%Z) true
  = negated (Instance_sort (ColumnInstance (Column_new amount_column))
               (Some 3%Z) (Some 1%Z) false).
Proof.
  apply (sort_descending_negates (ColumnInstance (Column_new amount_column))).
  exact I.
Defined.

(** ** The statements at concrete tables *)

Lemma header_layout_witness :
  ∃ thead_props tr_props key props content,
    Table_renderHeader amount_table
    = Element "thead" None thead_props
        [Element "tr" None tr_props [ArrayNode [Element "th" key props content]];
         Null] ∧
    props !! "rowSpan" = Some (PropNum 2).
Proof.
  destruct (header_layout amount_table)
    as (thp & trp & main & sub & Heq & Hlen & Hcol & _ & Hsub & _).
  destruct (Hcol 0 (Column_new amount_column) eq_refl) as [_ Hvisible].
  destruct (Hvisible eq_refl) as (key & props & content & Hmain & Hspan).
  destruct main as [|cell [|cell' main]]; try discriminate Hlen.
  injection Hmain as ->.
  assert (sub = Null) as -> by (apply Hsub; reflexivity).
  exists thp, trp, key, props, content. split; [exact Heq|exact Hspan].
Defined.

Lemma Group_new_requires_sortMethod_witness :
  Group_new unsortable_group NoChildren = Throw sortMethod_required ∧
  ∃ g, Group_new sortable_group
         (ChildArray [ColumnElement amount_column; ColumnElement hidden_column])
       = Ok g.
Proof.
  split.
  - destruct (Group_new_requires_sortMethod unsortable_group NoChildren)
      as [Hthrow _].
    destruct (Hthrow (conj eq_refl eq_refl)) as (e & -> & He).
    f_equal. apply He. reflexivity.
  - destruct (Group_new_requires_sortMethod sortable_group
                (ChildArray [ColumnElement amount_column;
                             ColumnElement hidden_column])) as [_ Hok].
    destruct Hok as [_ Hg]; [right; by eexists|].
    apply Hg. reflexivity.
Defined.

Lemma componentWillReceiveProps_rebuilds_witness :
  ∃ t',
    Table_componentWillReceiveProps amount_table replaced_props = Ok t' ∧
    state_sort (Table_state t') = Some "amount" ∧
    state_descending (Table_state t') = false ∧
    Table_sortMap t' = register_all (state_columns (Table_state t')) ∅.
Proof.
  destruct (componentWillReceiveProps_rebuilds amount_table replaced_props)
    as (Hdiff & _ & Hkeep).
  assert (children_ref (table_children (Table_props amount_table))
          ≠ children_ref (table_children replaced_props)) as Hne
    by discriminate.
  specialize (Hdiff Hne).
  destruct (Table_componentWillReceiveProps amount_table replaced_props)
    as [t'|e]; [|discriminate Hdiff].
  exists t'. destruct (Hkeep t' eq_refl) as (Hsort & Hdesc & Hreg).
  split; [reflexivity|]. split; [exact Hsort|]. split; [exact Hdesc|].
  apply (Hreg Hne).
Defined.

Lemma renderSorting_only_current_witness :
  Table_renderSorting amount_table (Some "amount") (Text "amount")
  = Fragment [Text "amount"; Text " "; Text "∧"] ∧
  Table_renderSorting amount_table (Some "other") (Text "other")
  = Text "other".
Proof.
  destruct (renderSorting_only_current amount_table) as [Hsorting _].
  split.
  - destruct (Hsorting (Some "amount") (Text "amount")) as [Hshown _].
    rewrite Hshown by (by split). reflexivity.
  - destruct (Hsorting (Some "other") (Text "other")) as [_ Hplain].
    apply Hplain. intros [_ [=]].
Defined.

Lemma sortBy_state_witness :
  state_sort (Table_state (Table_sortBy amount_table (Some "amount") None))
  = Some "amount" ∧
  state_descending (Table_state (Table_sortBy amount_table (Some "amount") None))
  = true ∧
  state_descending (Table_state (Table_sortBy amount_table (Some "other") None))
  = false.
Proof.
  destruct (sortBy_state amount_table (Some "amount")) as (Hsort & Hflip & _).
  destruct (sortBy_state amount_table (Some "other")) as (_ & _ & Hreset & _).
  split; [exact Hsort|]. split; [by apply Hflip|by apply Hreset].
Defined.

(** The code at the tables above. *)

Example amount_table_sorted :
  Table_sortedDataIndexes amount_table = Ok [NumKey 1; NumKey 2; NumKey 0].
Proof. reflexivity. Qed.

Example amount_table_sorted_descending :
  Table_sortedDataIndexes (Table_sortBy amount_table (Some "amount") None)
  = Ok [NumKey 0; NumKey 2; NumKey 1].
Proof. reflexivity. Qed.

Example amount_table_unsorted :
  Table_sortedDataIndexes (Table_sortBy amount_table (Some "total") None)
  = Ok [NumKey 0; NumKey 1; NumKey 2].
Proof. reflexivity. Qed.

Example group_children_registry :
  (λ r, (map_to_list r.2).*1) <$> Table_updateColumns group_children
  = Ok ["amount"].
Proof. vm_compute. reflexivity. Qed.

(** * Further properties *)

(** ** Construction *)

Section Construction.
Context `{Host}.

Lemma Group_new_well_shaped props children :
  column_elements children = true →
  lacks_sortMethod props = false →
  Group_new props children
  = Ok {| Group_props := props;
          Group_columns := Children_columns children |}.
Proof.
  intros Hall Hlacks. unfold Group_new. fold (lacks_sortMethod props).
  rewrite (Group_children_Ok _ Hall). simpl. by rewrite Hlacks.
Qed.

Lemma Group_new_Ok props children g :
  Group_new props children = Ok g →
  column_elements children = true ∧ lacks_sortMethod props = false.
Proof.
  unfold Group_new. fold (lacks_sortMethod props).
  destruct (column_elements children) eqn:Hall.
  - rewrite (Group_children_Ok _ Hall). simpl.
    by destruct (lacks_sortMethod props).
  - pose proof (Group_children_invalid children Hall) as Hthrow.
    destruct (Group_children children); done.
Qed.

Lemma length_omap_Child_column l :
  forallb column_element l = true → length (omap Child_column l) = length l.
Proof.
  induction l as [|e l IH]; [done|]. simpl.
  intros [He Hl]%andb_prop. destruct e; try discriminate He.
  simpl. f_equal. by apply IH.
Qed.

(** X1.  The Group constructor returns exactly when the children give its
    callback nothing to reject and the props do not lack a comparator,
    and the Group it returns holds the props and the Columns the children
    stand for: one per child, in order, for an array of Column elements,
    and none when there is no child or the only child is an empty string,
    a number, a boolean, [null], [undefined], a function or a symbol.  It
    never returns for an only child that is an element. *)
Theorem Group_new_returns_iff (props : GroupProps)
    (children : ChildrenProp Child) (g : Group) :
  (Group_new props children = Ok g ↔
   column_elements children = true ∧
   lacks_sortMethod props = false ∧
   g = {| Group_props := props;
          Group_columns := Children_columns children |}) ∧
  (∀ l, children = ChildArray l → forallb column_element l = true →
        length (Children_columns children) = length l) ∧
  (∀ e, children = OnlyChild e →
        (isValidElement e = true → Group_new props children ≠ Ok g) ∧
        ((∀ values, e ≠ ChildObject values) →
         Children_columns children = [])).
Proof.
  split; [|split].
  - split.
    + intros Hg. destruct (Group_new_Ok _ _ _ Hg) as [Hall Hlacks].
      rewrite (Group_new_well_shaped _ _ Hall Hlacks) in Hg.
      by injection Hg as <-.
    + intros (Hall & Hlacks & ->). by apply Group_new_well_shaped.
  - intros l -> Hall. by apply length_omap_Child_column.
  - intros e ->. split.
    + intros He Hg. apply Group_new_Ok in Hg as [Hall _].
      by destruct e.
    + intros He. destruct e; try done. by destruct (He values).
Qed.







End Construction.

(** ** Registry and sorted order *)

Section RegistryContents.
Context `{Host} `{ArraySort}.

Lemma Column_register_is_Some c sm k :
  is_Some (Column_registerSortColumns c sm !! k) ↔
  is_Some (sm !! k) ∨ registers c k.
Proof.
  unfold Column_registerSortColumns, registers, sortMap_set.
  destruct (column_sortId (Column_props c)) as [s|] eqn:Hid.
  - destruct (column_sortMethod (Column_props c)) as [m|] eqn:Hm.
    + simpl. destruct (String.eqb_spec s "") as [->|Hs]; simpl.
      * split; [by left|]. intros [?|([= <-] & Hk & _)]; done.
      * destruct (String.eqb_spec s "__proto__") as [->|Hproto].
        -- split; [by left|]. intros [?|([= <-] & _ & Hk & _)]; done.
        -- destruct (decide (s = k)) as [->|Hne].
           ++ rewrite lookup_insert_eq. split; [|by eexists].
              intros _. right. split; [done|]. split; [done|].
              split; [done|]. by eexists.
           ++ rewrite lookup_insert_ne by done. split; [by left|].
              intros [?|([= ?] & _)]; done.
    + split; [by left|]. intros [?|(_ & _ & _ & [? [=]])]; done.
  - split; [by left|]. intros [?|([=] & _)]; done.
Qed.

Lemma Column_register_Some c sm k i :
  Column_registerSortColumns c sm !! k = Some i →
  sm !! k = Some i ∨ (i = ColumnInstance c ∧ registers c k).
Proof.
  unfold Column_registerSortColumns, registers, sortMap_set.
  destruct (column_sortId (Column_props c)) as [s|] eqn:Hid; [|by left].
  destruct (column_sortMethod (Column_props c)) as [m|] eqn:Hm; [|by left].
  simpl. destruct (String.eqb_spec s "") as [->|Hs]; simpl; [by left|].
  destruct (String.eqb_spec s "__proto__") as [->|Hproto]; [by left|].
  destruct (decide (s = k)) as [->|Hne].
  - rewrite lookup_insert_eq. intros [= <-]. right.
    split; [done|]. split; [done|]. split; [done|]. split; [done|].
    by eexists.
  - rewrite lookup_insert_ne by done. by left.
Qed.

Lemma register_columns_contents (l : list Column) sm k :
  (is_Some (foldl (λ sm c, Column_registerSortColumns c sm) sm l !! k) ↔
   is_Some (sm !! k) ∨ ∃ c, c ∈ l ∧ registers c k) ∧
  (∀ i, foldl (λ sm c, Column_registerSortColumns c sm) sm l !! k = Some i →
        sm !! k = Some i ∨
        ∃ c, i = ColumnInstance c ∧ c ∈ l ∧ registers c k).
Proof.
  revert sm. induction l as [|c l IH]; intros sm; cbn [foldl].
  - split.
    + split; [by left|]. intros [?|(c & Hc & _)]; [done|].
      by apply elem_of_nil in Hc.
    + intros i Hi. by left.
  - destruct (IH (Column_registerSortColumns c sm)) as [Hiff Hsome]. split.
    + rewrite Hiff, Column_register_is_Some. split.
      * intros [[?|Hc]|(c' & Hc' & Hreg)]; [by left|right..].
        -- exists c. split; [apply list_elem_of_here|done].
        -- exists c'. split; [by apply list_elem_of_further|done].
      * intros [?|(c' & [->|Hc']%elem_of_cons & Hreg)].
        -- left. by left.
        -- left. by right.
        -- right. by exists c'.
    + intros i Hi. destruct (Hsome i Hi) as [Hc|(c' & -> & Hc' & Hreg)].
      * apply Column_register_Some in Hc as [?|[-> Hreg]]; [by left|].
        right. exists c. split; [done|].
        split; [apply list_elem_of_here|done].
      * right. exists c'. split; [done|].
        split; [by apply list_elem_of_further|done].
Qed.

(** The registry of a built table has an entry for [k] exactly when one
    of its columns registers under [k]. *)
Lemma Table_built_is_Some t k :
  Table_built t →
  is_Some (Table_sortMap t !! k) ↔
  ∃ c, c ∈ all_columns (state_columns (Table_state t)) ∧ registers c k.
Proof.
  intros [children Hbuilt].
  apply updateColumns_from_Ok in Hbuilt as [_ Hsm].
  rewrite Hsm, register_all_columns.
  destruct (register_columns_contents
              (all_columns (state_columns (Table_state t))) ∅ k)
    as [Hiff _].
  rewrite Hiff, lookup_empty. split.
  - intros [[? [=]]|?]; done.
  - intros ?. by right.
Qed.

Lemma Table_built_None t k :
  Table_built t →
  (∀ c, c ∈ all_columns (state_columns (Table_state t)) → ¬ registers c k) →
  Table_sortMap t !! k = None.
Proof.
  intros Hbuilt Hnone. apply eq_None_not_Some.
  rewrite (Table_built_is_Some t k Hbuilt).
  intros (c & Hc & Hreg). by apply (Hnone c Hc).
Qed.

(** X5.  The registry of a built table has an entry for [k] exactly when one
    of its columns, at top level or inside a group, has a comparator and
    the sort id [k], and [k] is truthy and is not "__proto__"; and every
    entry for [k] is such a Column of the table.  Neither the empty
    string nor "__proto__" is ever a key. *)
Theorem Table_registry_contents (t : Table) (k : string) :
  Table_built t →
  (is_Some (Table_sortMap t !! k) ↔
   ∃ c, c ∈ all_columns (state_columns (Table_state t)) ∧ registers c k) ∧
  (∀ i, Table_sortMap t !! k = Some i →
        ∃ c, i = ColumnInstance c ∧
             c ∈ all_columns (state_columns (Table_state t)) ∧
             registers c k) ∧
  Table_sortMap t !! "" = None ∧
  Table_sortMap t !! "__proto__" = None.
Proof.
  intros Hbuilt. split; [by apply Table_built_is_Some|].
  split; [|split].
  - destruct Hbuilt as [children Hbuilt].
    apply updateColumns_from_Ok in Hbuilt as [_ Hsm].
    rewrite Hsm, register_all_columns. intros i Hi.
    destruct (register_columns_contents
                (all_columns (state_columns (Table_state t))) ∅ k)
      as [_ Hsome].
    destruct (Hsome i Hi) as [Hempty|?]; [|done].
    by rewrite lookup_empty in Hempty.
  - apply Table_built_None; [done|]. by intros c _ (_ & Hne & _).
  - apply Table_built_None; [done|]. by intros c _ (_ & _ & Hne & _).
Qed.

(** X7.  Take a built table none of whose columns registers under the
    current sort id or under "hasOwnProperty".  Then [sortedDataIndexes]
    leaves the indexes in the order of the dataset: it returns the
    positions of an array and the keys of a mapping, in order.  Of a
    mapping with a [length] property that is a valid array length it
    returns the positions below that length instead of the keys, and
    from the length [2^32] on it throws the host's RangeError. *)
Theorem unknown_sort_keeps_order (t : Table) :
  let d := table_data (Table_props t) in
  Table_built t →
  (∀ c, c ∈ all_columns (state_columns (Table_state t)) →
        ¬ registers c (property_key (state_sort (Table_state t))) ∧
        ¬ registers c "hasOwnProperty") →
  (array_like d = None → Table_sortedDataIndexes t = Ok (dataset_keys d)) ∧
  (∀ n, array_like d = Some n →
     ((n < 2 ^ 32)%N →
      Table_sortedDataIndexes t = Ok (NumKey <$> seq 0 (N.to_nat n))) ∧
     ((2 ^ 32 ≤ n)%N →
      Table_sortedDataIndexes t = Throw (RangeError "Invalid array length"))).
Proof.
  intros d Hbuilt Hnone. unfold Table_sortedDataIndexes. fold d.
  rewrite (Table_built_None t "hasOwnProperty" Hbuilt)
    by (intros c Hc; by apply Hnone).
  rewrite (Table_built_None t (property_key (state_sort (Table_state t)))
             Hbuilt) by (intros c Hc; by apply Hnone).
  split.
  - intros Hlike. by rewrite (lodash_map_indexes_keys d Hlike).
  - intros n Hlike. unfold lodash_map_indexes. rewrite Hlike.
    rewrite (data_indexes_array_like d n Hlike). split.
    + intros Hn. apply N.ltb_lt in Hn. by rewrite Hn.
    + intros Hn. apply N.ltb_ge in Hn. by rewrite Hn.
Qed.

(** X24.  In a built table with a column that registers under the sort id
    "hasOwnProperty", [sortedDataIndexes] throws whatever the current
    sort: the entry hides the method of that name, and the call is a
    TypeError, unless collecting the indexes has thrown before. *)
Theorem registered_hasOwnProperty_throws (t : Table) (c : Column) :
  let d := table_data (Table_props t) in
  Table_built t →
  c ∈ all_columns (state_columns (Table_state t)) →
  registers c "hasOwnProperty" →
  throws (Table_sortedDataIndexes t) = true ∧
  (throws (lodash_map_indexes d) = false →
   Table_sortedDataIndexes t
   = Throw (TypeError "this.sortMap.hasOwnProperty is not a function")).
Proof.
  intros d Hbuilt Hc Hreg. unfold Table_sortedDataIndexes. fold d.
  assert (is_Some (Table_sortMap t !! "hasOwnProperty")) as [i Hi].
  { apply (Table_built_is_Some t _ Hbuilt). by exists c. }
  rewrite Hi. by destruct (lodash_map_indexes d).
Qed.

End RegistryContents.

(** ** The default comparator *)

Section DefaultOrder.
Context `{Host} `{ArraySort}.

(** X8.  On a Column the default comparison returns -1, 0 or 1, and where the
    host's [<] is the converse of its [>] and no two values are each
    greater than the other, comparing in descending direction is
    comparing the exchanged rows in ascending direction. *)
Theorem default_sort_descending_exchanges (c : Column) (a b : Row) :
  let va := Column_value c a in
  let vb := Column_value c b in
  column_sortMethod (Column_props c) = Some DefaultSort →
  js_lt va vb = js_gt vb va →
  js_lt vb va = js_gt va vb →
  js_gt va vb && js_gt vb va = false →
  Column_sort c a b true = Column_sort c b a false ∧
  ∃ z, Column_sort c a b false = Ok z ∧ (z = -1 ∨ z = 0 ∨ z = 1)%Z.
Proof.
  intros va vb Hm Hab Hba Hasym.
  unfold Column_sort, sort_with, Column_subject. rewrite Hm. simpl.
  unfold defaultSort. simpl. fold (Column_value c a) (Column_value c b).
  fold va vb. rewrite Hab, Hba.
  destruct (js_gt va vb), (js_gt vb va); try discriminate Hasym;
    (split; [reflexivity|]); eexists; (split; [reflexivity|]); lia.
Qed.

Lemma StronglySorted_elements {A} (R R' : A → A → Prop) (l : list A) :
  (∀ x y, x ∈ l → y ∈ l → R x y → R' x y) →
  StronglySorted R l → StronglySorted R' l.
Proof.
  intros Himpl Hsorted. induction Hsorted as [|x l Hsorted IH Hall].
  - constructor.
  - constructor.
    + apply IH. intros y z Hy Hz. apply Himpl; by apply list_elem_of_further.
    + rewrite Forall_forall in Hall. apply Forall_forall. intros y Hy.
      apply Himpl; [apply list_elem_of_here|by apply list_elem_of_further|].
      by apply Hall.
Qed.

(** The host's sort of the indexes by the default comparison of a
    Column, over values that the host orders as their ranks. *)
Lemma default_index_sort (t : Table) (c : Column) (rank : Value → Z) :
  let d := table_data (Table_props t) in
  let v i := Column_value c (data_get d i) in
  column_sortMethod (Column_props c) = Some DefaultSort →
  (∀ i j, i ∈ data_indexes d → j ∈ data_indexes d →
     js_gt (v i) (v j) = bool_decide (rank (v j) < rank (v i))%Z ∧
     js_lt (v i) (v j) = bool_decide (rank (v i) < rank (v j))%Z) →
  ∃ l,
    array_sort (index_comparator t (ColumnInstance c)) (data_indexes d) = Ok l ∧
    data_indexes d ≡ₚ l ∧
    StronglySorted
      (λ i j, if state_descending (Table_state t)
              then (rank (v j) ≤ rank (v i))%Z
              else (rank (v i) ≤ rank (v j))%Z) l.
Proof.
  intros d v Hm Hrank.
  pose (dir := (if state_descending (Table_state t) then -1 else 1)%Z).
  pose (f := λ i j : JsKey,
          ((if js_gt (v i) (v j) then 1
            else if js_lt (v i) (v j) then -1 else 0) * dir)%Z).
  destruct (array_sort_spec JsKey
              (index_comparator t (ColumnInstance c)) f) with (l := data_indexes d)
    as (l & Hl & Hperm & Hord).
  { intros i j. unfold index_comparator. simpl.
    unfold Column_sort, sort_with. rewrite Hm. reflexivity. }
  exists l. split; [exact Hl|]. split; [exact Hperm|].
  assert (∀ i j, i ∈ data_indexes d → j ∈ data_indexes d →
            f i j = (Z.sgn (rank (v i) - rank (v j)) * dir)%Z) as Hf.
  { intros i j Hi Hj. unfold f. destruct (Hrank i j Hi Hj) as [-> ->].
    repeat case_bool_decide; lia. }
  eapply StronglySorted_elements; [|apply Hord].
  - intros i j Hi Hj. rewrite <- Hperm in Hi, Hj. rewrite (Hf i j Hi Hj).
    unfold dir. destruct (state_descending (Table_state t)); lia.
  - split.
    + intros i j Hi Hj. rewrite (Hf i j Hi Hj), (Hf j i Hj Hi).
      unfold dir. destruct (state_descending (Table_state t)); lia.
    + intros i j k Hi Hj Hk. rewrite (Hf i j Hi Hj), (Hf j k Hj Hk), (Hf i k Hi Hk).
      unfold dir. destruct (state_descending (Table_state t)); lia.
Qed.

(** X9.  When the registry has no entry under "hasOwnProperty", the
    current sort is registered to a Column with the default comparator,
    the dataset is not an array-like mapping of length [2^32] or more,
    and the host's [>] and [<] order the values of the rows at the
    indexes lodash collects as their ranks, the rows come out in
    nondecreasing order of rank, or in nonincreasing order when the table
    sorts descending. *)
Theorem default_sort_by_value (t : Table) (c : Column) (rank : Value → Z) :
  let d := table_data (Table_props t) in
  let v i := Column_value c (data_get d i) in
  Table_sortMap t !! "hasOwnProperty" = None →
  Table_sortMap t !! property_key (state_sort (Table_state t))
  = Some (ColumnInstance c) →
  column_sortMethod (Column_props c) = Some DefaultSort →
  (∀ n, array_like d = Some n → (n < 2 ^ 32)%N) →
  (∀ i j, i ∈ data_indexes d → j ∈ data_indexes d →
     js_gt (v i) (v j) = bool_decide (rank (v j) < rank (v i))%Z ∧
     js_lt (v i) (v j) = bool_decide (rank (v i) < rank (v j))%Z) →
  ∃ l,
    Table_sortedDataIndexes t = Ok l ∧
    data_indexes d ≡ₚ l ∧
    StronglySorted
      (λ i j, if state_descending (Table_state t)
              then (rank (v j) ≤ rank (v i))%Z
              else (rank (v i) ≤ rank (v j))%Z) l.
Proof.
  intros d v Hown Hreg Hm Hlen Hrank.
  unfold Table_sortedDataIndexes. fold d.
  rewrite (lodash_map_indexes_returns d Hlen), Hown, Hreg.
  by apply default_index_sort.
Qed.


End DefaultOrder.

(** ** Sort state and clicks *)

Section Clicks.
Context `{Host} `{ArraySort}.

(** X11.  Asking twice for the sort order that is already current gives the
    table back: the direction is flipped and flipped again. *)
Theorem sortBy_twice_restores (t : Table) (s : option string) :
  s = state_sort (Table_state t) →
  Table_sortBy (Table_sortBy t s None) s None = t.
Proof.
  intros ->. destruct t as [props [sort descending columns] sortMap].
  unfold Table_sortBy, Table_validateProps, setState_sort, strict_eq. simpl.
  rewrite !bool_decide_eq_true_2 by done. by rewrite negb_involutive.
Qed.

(** X12.  The [sort] flag a Column hands to its [headerProps] hook is [true]
    exactly when [renderSorting] puts the indicator on a header with that
    sort id; for a falsy current sort the flag is that falsy value. *)
Theorem isSorted_agrees_with_indicator (t : Table) (c : Column) :
  let current := state_sort (Table_state t) in
  let sortId := column_sortId (Column_props c) in
  (Column_isSorted c current = FlagBool true ↔
   truthy sortId && strict_eq sortId current = true) ∧
  (truthy current = false →
   Column_isSorted c current
   = match current with Some _ => FlagEmpty | None => FlagUndefined end).
Proof.
  intros current sortId. unfold Column_isSorted, isSorted, strict_eq.
  fold sortId. split.
  - destruct current as [s|]; simpl.
    + destruct (String.eqb_spec s "") as [->|Hs]; simpl.
      * split; [done|]. intros [Ht Heq%bool_decide_eq_true]%andb_prop.
        by rewrite Heq in Ht.
      * split.
        -- intros [= Heq%bool_decide_eq_true]. rewrite <- Heq. simpl.
           destruct (String.eqb_spec s ""); [done|]. simpl.
           by apply bool_decide_eq_true.
        -- intros [_ Heq%bool_decide_eq_true]%andb_prop.
           by rewrite bool_decide_eq_true_2.
    + split; [done|]. intros [Ht Heq%bool_decide_eq_true]%andb_prop.
      by rewrite Heq in Ht.
  - destruct current as [s|]; simpl; [|done].
    destruct (String.eqb_spec s ""); simpl; done.
Qed.

(** X13.  The header of a visible Column with a truthy sort id carries a click
    handler for that sort id, whatever the custom props say.  Running the
    handler makes the sort id current; the next render puts the indicator
    on headers with that sort id and on no header with another one, and,
    when the registry holds the column under the id and has no entry
    under "hasOwnProperty", sorts the indexes it collects from the
    dataset by that column; when it has such an entry, the render
    throws. *)
Theorem click_header_sorts (t : Table) (c : Column) (s : string)
    (colIndex : nat) (groupIndex : option nat)
    (groupProps : option (gmap string PropValue)) :
  column_hidden (Column_props c) = false →
  column_sortId (Column_props c) = Some s → s ≠ "" →
  ∃ key props content,
    Column_renderHeader t c colIndex (state_sort (Table_state t))
      (state_descending (Table_state t)) groupIndex groupProps
    = Element "th" key props content ∧
    props !! "onClick" = Some (PropSortBy s) ∧
    let t' := Table_click t (PropSortBy s) in
    state_sort (Table_state t') = Some s ∧
    (∀ cell,
       Table_renderSorting t' (Some s) cell
       = table_renderSorting (Table_props t)
           {| sorting_cell := cell;
              sorting_descending := state_descending (Table_state t') |}) ∧
    (∀ other cell, other ≠ Some s →
       Table_renderSorting t' other cell = cell) ∧
    (Table_sortMap t !! "hasOwnProperty" = None →
     Table_sortMap t !! s = Some (ColumnInstance c) →
     Table_sortedDataIndexes t'
     = indexes ← lodash_map_indexes (table_data (Table_props t));
       array_sort (index_comparator t' (ColumnInstance c)) indexes) ∧
    (is_Some (Table_sortMap t !! "hasOwnProperty") →
     throws (Table_render t') = true).
Proof.
  intros Hvisible Hid Hs.
  assert (truthy (Some s) = true) as Htruthy.
  { simpl. by destruct (String.eqb_spec s ""). }
  unfold Column_renderHeader. rewrite Hvisible, Hid.
  eexists _, _, _. split; [reflexivity|]. split.
  { unfold with_onClick. rewrite Htruthy. apply lookup_insert_eq. }
  simpl. split; [done|]. split; [|split; [|split]].
  - intros cell. unfold Table_renderSorting, strict_eq. simpl.
    simpl in Htruthy. rewrite Htruthy. by rewrite bool_decide_eq_true_2.
  - intros other cell Hother. unfold Table_renderSorting, strict_eq. simpl.
    rewrite bool_decide_eq_false_2 by done. by rewrite andb_false_r.
  - intros Hown Hreg. unfold Table_sortedDataIndexes. simpl.
    by rewrite Hown, Hreg.
  - intros [i Hi]. unfold Table_render, Table_renderBody,
      Table_sortedDataIndexes. simpl. rewrite Hi.
    by destruct (lodash_map_indexes (table_data (Table_props t))).
Qed.

End Clicks.

(** ** Datasets and the body *)

Section Body.
Context `{Host} `{ArraySort}.

Lemma assoc_None entries k :
  (∀ row : Row, (k, row) ∉ entries) → assoc k entries = None.
Proof.
  induction entries as [|[k' row'] l IH]; simpl; [done|].
  intros Hnone. destruct (String.eqb_spec k k') as [->|Hne].
  - destruct (Hnone row'). apply list_elem_of_here.
  - apply IH. intros row Hin. apply (Hnone row).
    by apply list_elem_of_further.
Qed.

(** X14.  The indexes collected from a dataset that is an array, or a mapping
    without a [length] property that is a valid array length, are the
    positions of the array or the keys of the mapping, and reading the
    dataset at them gives its rows back, in order.  From a mapping with
    such a [length] the positions below the length are collected instead
    of the keys, and reading it at a position reads the property named
    by the decimal numeral of the position, [undefined] if there is
    none. *)
Theorem data_get_indexes (d : Dataset) :
  distinct_keys d →
  (array_like d = None →
   data_indexes d = dataset_keys d ∧
   data_get d <$> data_indexes d = data_rows d) ∧
  (∀ n entries, d = ObjectData entries → array_like d = Some n →
     data_indexes d = NumKey <$> seq 0 (N.to_nat n) ∧
     (∀ k row, (pretty k, row) ∈ entries → data_get d (NumKey k) = row) ∧
     (∀ k, (∀ row, (pretty k, row) ∉ entries) →
           data_get d (NumKey k) = row_undefined)).
Proof.
  intros Hkeys. split.
  - intros Hlike. rewrite (data_indexes_keys d Hlike).
    split; [done|]. by apply data_get_dataset_keys.
  - intros n entries -> Hlike.
    split; [by apply data_indexes_array_like|]. split.
    + intros k row Hin. cbn [data_get key_string].
      by rewrite (assoc_lookup entries (pretty k) row).
    + intros k Hnone. cbn [data_get key_string].
      by rewrite (assoc_None entries (pretty k)).
Qed.




End Body.

(** ** Rows against the header *)

Section Grid.
Context `{Host}.

Lemma filter_imap_visible (F : nat → Column → Node) (l : list Column) :
  (∀ k c, is_Null (F k c) = negb (visible c)) →
  length (filter (λ n, is_Null n = false) (imap F l))
  = length (filter (λ c, visible c = true) l).
Proof.
  revert F. induction l as [|c l IH]; intros F HF; simpl; [done|].
  rewrite !filter_cons. specialize (IH (F ∘ S) (λ k, HF (S k))).
  specialize (HF 0 c).
  destruct (visible c); simpl in HF; rewrite HF; simpl; by rewrite IH.
Qed.

Lemma length_leaves (G : Node → list Node) (F : nat → Instance → Node) columns :
  (∀ k i, length (G (F k i))
          = length (filter (λ c, visible c = true) (Instance_columns i))) →
  length (concat (G <$> imap F columns))
  = length (filter (λ c, visible c = true) (all_columns columns)).
Proof.
  revert F. induction columns as [|i l IH]; intros F HF; [done|].
  unfold all_columns. simpl. rewrite filter_app, !length_app, HF. f_equal.
  apply (IH (F ∘ S)). intros k i'. apply HF.
Qed.

Lemma Column_renderCell_is_Null c row rowIndex colIndex groupIndex groupProps :
  is_Null (Column_renderCell c row rowIndex colIndex groupIndex groupProps)
  = negb (visible c).
Proof.
  unfold Column_renderCell, visible.
  by destruct (column_hidden (Column_props c)).
Qed.

Lemma Column_renderHeader_is_Null t c colIndex sort descending groupIndex
    groupProps :
  is_Null (Column_renderHeader t c colIndex sort descending groupIndex
             groupProps)
  = negb (visible c).
Proof.
  unfold Column_renderHeader, visible.
  by destruct (column_hidden (Column_props c)).
Qed.

(** X16.  Every body row lines up with the header.  A row has one entry per
    top-level instance, and the cells it puts on the page are as many as
    the visible columns of the table, top-level or inside groups; the
    header has as many cells that stand above a single column. *)
Theorem row_matches_header (t : Table) (rowIndex : JsKey) :
  let columns := state_columns (Table_state t) in
  let shown := filter (λ c, visible c = true) (all_columns columns) in
  (∃ props,
     Table_renderRow t rowIndex
     = Element "tr" (Some rowIndex) props
         [ArrayNode (Table_rowCells t rowIndex)]) ∧
  length (Table_rowCells t rowIndex) = length columns ∧
  length (row_leaves (Table_rowCells t rowIndex)) = length shown ∧
  length (header_leaves (Table_headerCells t)) = length shown.
Proof.
  intros columns shown. split; [by eexists|]. split; [|split].
  - unfold Table_rowCells. by rewrite length_imap.
  - unfold row_leaves, Table_rowCells. apply length_leaves.
    intros k [c|g]; simpl.
    + rewrite filter_cons, filter_nil. unfold Column_renderCell, visible.
      by destruct (column_hidden (Column_props c)).
    + unfold Group_renderCell. apply filter_imap_visible.
      intros k' c. apply Column_renderCell_is_Null.
  - unfold header_leaves, Table_headerCells. apply length_leaves.
    intros k [c|g]; simpl.
    + rewrite filter_cons, filter_nil. unfold Column_renderHeader, visible.
      by destruct (column_hidden (Column_props c)).
    + unfold Group_renderHeader. cbn [tail]. apply filter_imap_visible.
      intros k' c. apply Column_renderHeader_is_Null.
Qed.

(** X17.  The props of the header cell of a visible Column, by precedence: the
    click handler of a truthy sort id, then rowSpan 2 for a top-level
    column, then the column's [headerProps], then the props handed down
    by the group. *)
Theorem Column_renderHeader_props (t : Table) (c : Column) (colIndex : nat)
    (sort : option string) (descending : bool) (groupIndex : option nat)
    (groupProps : option (gmap string PropValue)) :
  let own := column_headerProps (Column_props c)
    {| header_colIndex := colIndex; header_groupIndex := groupIndex;
       header_sort := Column_isSorted c sort;
       header_descending := descending |} in
  let sortId := column_sortId (Column_props c) in
  column_hidden (Column_props c) = false →
  ∃ key props content,
    Column_renderHeader t c colIndex sort descending groupIndex groupProps
    = Element "th" key props content ∧
    ∀ k,
      props !! k =
      if bool_decide (k = "onClick") && truthy sortId
      then PropSortBy <$> sortId
      else if bool_decide (k = "rowSpan" ∧ groupIndex = None)
      then Some (PropNum 2)
      else match own !! k with
           | Some v => Some v
           | None => groupProps ≫= (λ gp, gp !! k)
           end.
Proof.
  intros own sortId Hvisible. unfold Column_renderHeader. rewrite Hvisible.
  fold own sortId. eexists _, _, _. split; [reflexivity|]. intros k.
  assert (with_groupProps groupProps own !! k
          = match own !! k with
            | Some v => Some v
            | None => groupProps ≫= (λ gp, gp !! k)
            end) as Hmerge.
  { unfold with_groupProps. destruct groupProps as [gp|]; simpl.
    - rewrite lookup_union. by destruct (own !! k), (gp !! k).
    - by destruct (own !! k). }
  unfold with_onClick. destruct sortId as [s|]; simpl.
  - destruct (String.eqb_spec s "") as [->|Hs]; simpl.
    + rewrite andb_false_r. destruct groupIndex as [g|].
      * rewrite bool_decide_eq_false_2 by (intros [_ [=]]). exact Hmerge.
      * case_bool_decide as Hk.
        -- destruct Hk as [-> _]. apply lookup_insert_eq.
        -- rewrite lookup_insert_ne by (intros <-; by apply Hk). exact Hmerge.
    + rewrite andb_true_r. case_bool_decide as Hclick.
      * subst k. apply lookup_insert_eq.
      * rewrite lookup_insert_ne by done. destruct groupIndex as [g|].
        -- rewrite bool_decide_eq_false_2 by (intros [_ [=]]). exact Hmerge.
        -- case_bool_decide as Hk.
           ++ destruct Hk as [-> _]. apply lookup_insert_eq.
           ++ rewrite lookup_insert_ne by (intros <-; by apply Hk).
              exact Hmerge.
  - rewrite andb_false_r. destruct groupIndex as [g|].
    + rewrite bool_decide_eq_false_2 by (intros [_ [=]]). exact Hmerge.
    + case_bool_decide as Hk.
      * destruct Hk as [-> _]. apply lookup_insert_eq.
      * rewrite lookup_insert_ne by (intros <-; by apply Hk). exact Hmerge.
Qed.


End Grid.

(** ** Default keys *)

Section Keys.
Context `{Host}.

Fixpoint colon_free (s : string) : Prop :=
  match s with
  | EmptyString => True
  | String a s' => a ≠ ":"%char ∧ colon_free s'
  end.

Lemma pretty_N_go_colon_free x s : colon_free s → colon_free (pretty_N_go x s).
Proof.
  revert s. induction (N.lt_wf_0 x) as [x _ IH]. intros s Hs.
  destruct (decide (x = 0)%N) as [->|Hx]; [done|].
  rewrite pretty_N_go_step by lia. apply IH.
  - apply N.div_lt; lia.
  - split; [|done]. unfold pretty_N_char. by repeat case_match.
Qed.

Lemma pretty_nat_colon_free (n : nat) : colon_free (pretty n).
Proof.
  unfold pretty, pretty_nat, pretty, pretty_N.
  case_decide; [by repeat split|]. by apply pretty_N_go_colon_free.
Qed.

Lemma colon_free_split d1 d2 r1 r2 :
  colon_free d1 → colon_free d2 →
  d1 +:+ ":" +:+ r1 = d2 +:+ ":" +:+ r2 → d1 = d2 ∧ r1 = r2.
Proof.
  revert d2. induction d1 as [|a d1 IH]; intros [|b d2]; cbn.
  - intros _ _ Heq. by simplify_eq.
  - intros _ [Hb _] Heq. by simplify_eq.
  - intros [Ha _] _ Heq. by simplify_eq.
  - intros [_ Hd1] [_ Hd2] Heq. simplify_eq.
    destruct (IH d2 Hd1 Hd2) as [-> ->]; done.
Qed.

Lemma colon_free_no_colon s d r : colon_free s → s ≠ d +:+ ":" +:+ r.
Proof.
  revert d. induction s as [|a s IH]; intros [|b d] Hs Heq; cbn in Hs, Heq;
    try done.
  - destruct Hs as [Ha _]. injection Heq as Ha' _. by destruct Ha.
  - destruct Hs as [_ Hs]. injection Heq as _ Heq. by apply (IH d Hs).
Qed.

(** X22.  With the default [key] hooks no two header or data cells of a row
    share a React key: the key of a Column determines its column index
    and its group index, also between a top-level column and a column
    inside a group, and the key of a Group determines its column index. *)
Theorem default_keys_distinct (args1 args2 : CellArgs) :
  (key_string (Column_default_key args1)
   = key_string (Column_default_key args2) →
   cell_colIndex args1 = cell_colIndex args2 ∧
   cell_groupIndex args1 = cell_groupIndex args2) ∧
  (key_string (Group_default_key args1)
   = key_string (Group_default_key args2) →
   cell_colIndex args1 = cell_colIndex args2).
Proof.
  unfold Column_default_key, Group_default_key. split.
  - destruct (cell_groupIndex args1) as [g1|], (cell_groupIndex args2) as [g2|];
      simpl.
    + intros [Hc Hg]%colon_free_split; try apply pretty_nat_colon_free.
      apply (inj pretty) in Hc, Hg. by subst.
    + intros Heq. symmetry in Heq.
      by apply colon_free_no_colon in Heq; [|apply pretty_nat_colon_free].
    + intros Heq.
      by apply colon_free_no_colon in Heq; [|apply pretty_nat_colon_free].
    + intros Hc. by apply (inj pretty) in Hc.
  - simpl. intros Hc. by apply (inj pretty) in Hc.
Qed.

End Keys.

(** ** Custom props of groups and rows *)

Section CustomProps.
Context `{Host}.

(** X19.  The props of the header cell of a Group, by precedence: the click
    handler of a truthy sort id, then colSpan, the number of child
    columns, then the group's [headerProps]. *)
Theorem Group_renderHeader_props (t : Table) (g : Group) (colIndex : nat)
    (sort : option string) (descending : bool) :
  let own := group_headerProps (Group_props g)
    {| header_colIndex := colIndex; header_groupIndex := None;
       header_sort := Group_isSorted g sort;
       header_descending := descending |} in
  let sortId := group_sortId (Group_props g) in
  ∃ key props content,
    head (Group_renderHeader t g colIndex sort descending)
    = Some (Element "th" key props content) ∧
    length (Group_renderHeader t g colIndex sort descending)
    = S (length (Group_columns g)) ∧
    ∀ k,
      props !! k =
      if bool_decide (k = "onClick") && truthy sortId
      then PropSortBy <$> sortId
      else if bool_decide (k = "colSpan")
      then Some (PropNum (Z.of_nat (length (Group_columns g))))
      else own !! k.
Proof.
  intros own sortId. unfold Group_renderHeader. fold own sortId.
  eexists _, _, _. split; [reflexivity|].
  split; [by rewrite length_cons, length_imap|]. intros k.
  unfold with_onClick. destruct sortId as [s|]; simpl.
  - destruct (String.eqb_spec s "") as [->|Hs]; simpl.
    + rewrite andb_false_r. case_bool_decide as Hk.
      * subst k. apply lookup_insert_eq.
      * by rewrite lookup_insert_ne.
    + rewrite andb_true_r. case_bool_decide as Hclick.
      * subst k. apply lookup_insert_eq.
      * rewrite lookup_insert_ne by done. case_bool_decide as Hk.
        -- subst k. apply lookup_insert_eq.
        -- by rewrite lookup_insert_ne.
  - rewrite andb_false_r. case_bool_decide as Hk.
    + subst k. apply lookup_insert_eq.
    + by rewrite lookup_insert_ne.
Qed.

(** X21.  The props of the rows: [trProps] applies to every row, called
    without argument for the two header rows and with the row and its
    index for a data row, and the props of the kind of row
    ([headerTrProps], [subHeaderTrProps], [dataTrProps]) take precedence
    over it.  The main header row is rendered even over no cells.  The
    React key of a row is the [key] among its props, if there is one;
    otherwise a header row has no key and a data row has the string of
    its index as key. *)
Theorem row_props_precedence (t : Table) (cells : list Node)
    (rowIndex : JsKey) :
  let p := Table_props t in
  let merged (special common : gmap string PropValue) k :=
    match special !! k with
    | Some v => Some v
    | None => common !! k
    end in
  let args := {| tr_row := data_get (table_data p) rowIndex;
                 tr_rowIndex := rowIndex |} in
  (∃ props content,
     Table_renderMainHeader t cells = Element "tr" None props content ∧
     (∀ k, props !! k
           = merged (table_headerTrProps p ()) (table_trProps p None) k) ∧
     Node_key (Table_renderMainHeader t cells)
     = PropValue_key <$> props !! "key") ∧
  (concat (sub_cells <$> cells) ≠ [] →
   ∃ props content,
     Table_renderSubHeader t cells = Element "tr" None props content ∧
     (∀ k, props !! k
           = merged (table_subHeaderTrProps p ()) (table_trProps p None) k) ∧
     Node_key (Table_renderSubHeader t cells)
     = PropValue_key <$> props !! "key") ∧
  (∃ props content,
     Table_renderRow t rowIndex = Element "tr" (Some rowIndex) props content ∧
     (∀ k, props !! k
           = merged (table_dataTrProps p args) (table_trProps p (Some args)) k) ∧
     Node_key (Table_renderRow t rowIndex)
     = Some (match props !! "key" with
             | Some v => PropValue_key v
             | None => KeyString (key_string rowIndex)
             end)).
Proof.
  intros p merged args.
  assert (∀ (m1 m2 : gmap string PropValue) k,
            (m1 ∪ m2) !! k = merged m1 m2 k) as Hmerge.
  { intros m1 m2 k. unfold merged. rewrite lookup_union.
    by destruct (m1 !! k), (m2 !! k). }
  split; [|split].
  - unfold Table_renderMainHeader. eexists _, _. split; [reflexivity|].
    split; [intros k; apply Hmerge|].
    cbn [Node_key]. by destruct (_ !! "key").
  - intros Hcells. unfold Table_renderSubHeader.
    destruct (concat (sub_cells <$> cells)); [done|]. simpl.
    eexists _, _. split; [reflexivity|].
    split; [intros k; apply Hmerge|]. by destruct (_ !! "key").
  - unfold Table_renderRow. eexists _, _. split; [reflexivity|].
    split; [intros k; apply Hmerge|].
    cbn [Node_key]. by destruct (_ !! "key").
Qed.


End CustomProps.

(** ** The further statements at concrete tables *)

Lemma Table_registry_contents_witness :
  is_Some (Table_sortMap amount_table !! "amount") ∧
  Table_sortMap amount_table !! "" = None ∧
  Table_sortMap amount_table !! "__proto__" = None.
Proof.
  destruct (Table_registry_contents amount_table "amount" amount_table_built)
    as (Hiff & _ & Hempty).
  split; [|exact Hempty]. apply Hiff.
  exists (Column_new amount_column). split; [apply list_elem_of_here|].
  split; [reflexivity|]. split; [discriminate|]. split; [discriminate|].
  by eexists.
Defined.

Lemma unknown_sort_keeps_order_witness :
  Table_sortedDataIndexes (Table_sortBy amount_table (Some "total") None)
  = Ok [NumKey 0; NumKey 1; NumKey 2] ∧
  Table_sortedDataIndexes array_like_table = Ok [NumKey 0; NumKey 1].
Proof.
  split.
  - apply (unknown_sort_keeps_order
             (Table_sortBy amount_table (Some "total") None)).
    + apply Table_sortBy_built, amount_table_built.
    + intros c Hc. apply list_elem_of_In in Hc. simpl in Hc.
      destruct Hc as [<-|[]]. split; intros [Hid _]; discriminate Hid.
    + reflexivity.
  - destruct (unknown_sort_keeps_order array_like_table) as [_ Hlike].
    + exists [ColumnElement amount_column]. reflexivity.
    + intros c Hc. apply list_elem_of_In in Hc. simpl in Hc.
      destruct Hc as [<-|[]]. split; intros [Hid _]; discriminate Hid.
    + destruct (Hlike 2%N eq_refl) as [Hshort _]. apply Hshort. reflexivity.
Defined.

Lemma registered_hasOwnProperty_throws_witness :
  Table_sortedDataIndexes shadowed_table
  = Throw (TypeError "this.sortMap.hasOwnProperty is not a function").
Proof.
  destruct (registered_hasOwnProperty_throws shadowed_table
              (Column_new shadowing_column)) as [_ Hthrow].
  - exists [ColumnElement shadowing_column]. reflexivity.
  - apply list_elem_of_here.
  - split; [reflexivity|]. split; [discriminate|]. split; [discriminate|].
    by eexists.
  - apply Hthrow. reflexivity.
Defined.

Lemma default_sort_descending_exchanges_witness :
  Column_sort (Column_new amount_column) (Some 3%Z) (Some 1%Z) true
  = Column_sort (Column_new amount_column) (Some 1%Z) (Some 3%Z) false.
Proof.
  apply (default_sort_descending_exchanges (Column_new amount_column)
           (Some 3%Z) (Some 1%Z)); reflexivity.
Defined.

Lemma default_sort_by_value_witness :
  ∃ l,
    Table_sortedDataIndexes amount_table = Ok l ∧
    data_indexes (table_data (Table_props amount_table)) ≡ₚ l ∧
    StronglySorted
      (λ i j,
         (default 0 (data_get (table_data (Table_props amount_table)) i)
          ≤ default 0 (data_get (table_data (Table_props amount_table)) j))%Z)
      l.
Proof.
  apply (default_sort_by_value amount_table (Column_new amount_column)
           (default 0%Z)); [reflexivity|reflexivity|reflexivity|done|].
  intros i j Hi Hj. apply list_elem_of_In in Hi, Hj. simpl in Hi, Hj.
  destruct Hi as [<-|[<-|[<-|[]]]], Hj as [<-|[<-|[<-|[]]]];
    split; reflexivity.
Defined.

Lemma sortBy_twice_restores_witness :
  Table_sortBy (Table_sortBy amount_table (Some "amount") None)
    (Some "amount") None
  = amount_table.
Proof. apply sortBy_twice_restores. reflexivity. Defined.

Lemma click_header_sorts_witness :
  state_sort (Table_state (Table_click amount_table (PropSortBy "amount")))
  = Some "amount".
Proof.
  destruct (click_header_sorts amount_table (Column_new amount_column)
              "amount" 0 None None eq_refl eq_refl)
    as (key & props & content & _ & _ & Hsort & _); [discriminate|].
  exact Hsort.
Defined.

Lemma ledger_keys_distinct :
  distinct_keys (table_data (Table_props ledger_table)).
Proof.
  simpl. apply NoDup_cons. split.
  - intros Hin. apply list_elem_of_In in Hin. simpl in Hin.
    destruct Hin as [[=]|[]].
  - apply NoDup_singleton.
Qed.

Lemma data_get_indexes_witness :
  data_get (table_data (Table_props ledger_table))
    <$> data_indexes (table_data (Table_props ledger_table))
  = [Some 7%Z; Some 4%Z].
Proof.
  destruct (data_get_indexes (table_data (Table_props ledger_table))
              ledger_keys_distinct) as [Hkeys _].
  by destruct (Hkeys eq_refl) as [_ Hrows].
Defined.



Lemma Column_renderHeader_props_witness :
  ∃ key props content,
    Column_renderHeader amount_table (Column_new amount_column) 0
      (Some "amount") false None None
    = Element "th" key props content ∧
    props !! "onClick" = Some (PropSortBy "amount") ∧
    props !! "rowSpan" = Some (PropNum 2) ∧
    props !! "colSpan" = None.
Proof.
  destruct (Column_renderHeader_props amount_table (Column_new amount_column)
              0 (Some "amount") false None None eq_refl)
    as (key & props & content & Heq & Hprops).
  exists key, props, content. split; [exact Heq|].
  rewrite !Hprops. repeat split.
Defined.


Lemma Table_built_column_registered_witness :
  Table_sortMap amount_table !! "amount"
  = Some (ColumnInstance (Column_new amount_column)).
Proof.
  apply (Table_built_column_registered amount_table []
           (Column_new amount_column) [] "amount" amount_table_built).
  - reflexivity.
  - reflexivity.
  - discriminate.
  - discriminate.
  - by eexists.
  - constructor.
Defined.

(** ** The default indicator and the cells of a group *)

Section Indicator.
Context `{Host}.

(** X23.  With the default sorting renderer the header of the current sort
    shows its content, a space and an arrow, "∧" for ascending and "∨"
    for descending order, and a click on that header turns the arrow
    around. *)
Theorem default_indicator_flips (t : Table) (s : string) (cell : Node) :
  let arrow (descending : bool) := Text (if descending then "∨" else "∧") in
  table_renderSorting (Table_props t) = defaultRenderSorting →
  s ≠ "" → state_sort (Table_state t) = Some s →
  Table_renderSorting t (Some s) cell
  = Fragment [cell; Text " "; arrow (state_descending (Table_state t))] ∧
  Table_renderSorting (Table_click t (PropSortBy s)) (Some s) cell
  = Fragment [cell; Text " "; arrow (negb (state_descending (Table_state t)))].
Proof.
  intros arrow Hdefault Hs Hsort.
  unfold Table_renderSorting, Table_click, Table_sortBy, Table_validateProps,
    strict_eq.
  simpl. rewrite Hdefault, Hsort.
  destruct (String.eqb_spec s ""); [done|]. simpl.
  rewrite !bool_decide_eq_true_2 by done. simpl.
  unfold defaultRenderSorting, arrow. simpl.
  by destruct (state_descending (Table_state t)).
Qed.

(** X20.  The data cells of a Group: one entry per child column, and for a
    visible child at position [k] a cell whose props are the child's
    [tdProps], called with [k] as group index, over the group's
    [tdProps] for that position. *)
Theorem Group_renderCell_props (g : Group) (row : Row) (rowIndex : JsKey)
    (columnIndex k : nat) (c : Column) :
  let own := column_tdProps (Column_props c)
    {| cell_row := Some row; cell_rowIndex := Some rowIndex;
       cell_colIndex := columnIndex; cell_groupIndex := Some k |} in
  let handed := group_tdProps (Group_props g)
    {| gcell_row := row; gcell_rowIndex := rowIndex;
       gcell_columnIndex := columnIndex; gcell_groupIndex := k |} in
  Group_columns g !! k = Some c →
  column_hidden (Column_props c) = false →
  length (Group_renderCell g row rowIndex columnIndex)
  = length (Group_columns g) ∧
  ∃ key props content,
    Group_renderCell g row rowIndex columnIndex !! k
    = Some (Element "td" key props content) ∧
    ∀ x, props !! x = match own !! x with
                      | Some v => Some v
                      | None => handed !! x
                      end.
Proof.
  intros own handed Hk Hvisible. unfold Group_renderCell.
  split; [by rewrite length_imap|].
  rewrite list_lookup_imap, Hk. simpl.
  unfold Column_renderCell. rewrite Hvisible.
  eexists _, _, _. split; [reflexivity|]. intros x. simpl.
  fold own handed. rewrite lookup_union.
  by destruct (own !! x), (handed !! x).
Qed.

End Indicator.


Lemma default_indicator_flips_witness :
  Table_renderSorting amount_table (Some "amount") (Text "amount")
  = Fragment [Text "amount"; Text " "; Text "∧"] ∧
  Table_renderSorting (Table_click amount_table (PropSortBy "amount"))
    (Some "amount") (Text "amount")
  = Fragment [Text "amount"; Text " "; Text "∨"].
Proof.
  apply (default_indicator_flips amount_table "amount" (Text "amount"));
    [reflexivity|discriminate|reflexivity].
Defined.

Lemma Group_renderCell_props_witness :
  ∃ g key props content,
    Group_new sortable_group
      (ChildArray [ColumnElement amount_column; ColumnElement hidden_column])
    = Ok g ∧
    length (Group_renderCell g (Some 3%Z) (NumKey 0) 0) = 2 ∧
    Group_renderCell g (Some 3%Z) (NumKey 0) 0 !! 0
    = Some (Element "td" key props content).
Proof.
  eexists. 
  destruct (Group_renderCell_props
              {| Group_props := sortable_group;
                 Group_columns := [Column_new amount_column;
                                   Column_new hidden_column] |}
              (Some 3%Z) (NumKey 0) 0 0 (Column_new amount_column)
              eq_refl eq_refl)
    as (Hlen & key & props & content & Hcell & _).
  exists key, props, content. split; [reflexivity|].
  split; [exact Hlen|exact Hcell].
Defined.
